(** * Gradio_UI.py: step-to-message extraction and the streaming driver

    A shallow embedding of [pull_messages_from_step] and [stream_to_gradio]
    (src/Gradio_UI.py), with the part of Python they rely on: unicode
    strings, [str.strip], [re.sub] on the six patterns of the file, integer
    and float formatting, generators that yield references to mutable
    [ChatMessage] objects, and exceptions. *)

From Stdlib Require Import ZArith NArith QArith Lia List Ascii String.
From stdpp Require Import base option list gmap strings.

Local Open Scope N_scope.

(** ** Python strings

    A [str] is a sequence of unicode code points. *)

Abbreviation str := (list N).

Module Py.

(** Decoder for the literals of the source file, which is UTF-8 encoded. *)
Fixpoint utf8_decode (bs : list N) : str :=
  match bs with
  | [] => []
  | b :: r =>
      if b <? 0x80 then b :: utf8_decode r
      else if b <? 0xE0 then
        match r with
        | c1 :: r1 => ((b - 0xC0) * 64 + (c1 - 0x80)) :: utf8_decode r1
        | _ => []
        end
      else if b <? 0xF0 then
        match r with
        | c1 :: c2 :: r2 =>
            ((b - 0xE0) * 4096 + (c1 - 0x80) * 64 + (c2 - 0x80)) :: utf8_decode r2
        | _ => []
        end
      else
        match r with
        | c1 :: c2 :: c3 :: r3 =>
            ((b - 0xF0) * 262144 + (c1 - 0x80) * 4096 + (c2 - 0x80) * 64 + (c3 - 0x80))
              :: utf8_decode r3
        | _ => []
        end
  end.

(** A literal of the source. *)
Definition lit (s : string) : str :=
  utf8_decode (map N_of_ascii (list_ascii_of_string s)).

(** The characters that a Rocq literal cannot hold directly. *)
Definition nl : str := [10].
Definition dquote : str := [34].

(** [str.isspace] on one code point; [\s] of [re] uses the same table. *)
Definition isspace (c : N) : bool :=
  ((9 <=? c) && (c <=? 13)) || ((28 <=? c) && (c <=? 32))
  || (c =? 0x85) || (c =? 0xA0) || (c =? 0x1680)
  || ((0x2000 <=? c) && (c <=? 0x200A))
  || (c =? 0x2028) || (c =? 0x2029) || (c =? 0x202F) || (c =? 0x205F)
  || (c =? 0x3000).

Fixpoint lstrip (s : str) : str :=
  match s with
  | c :: s' => if isspace c then lstrip s' else s
  | [] => []
  end.

Definition rstrip (s : str) : str := rev (lstrip (rev s)).

(** [s.strip()] *)
Definition strip (s : str) : str := rstrip (lstrip s).

(** [s.startswith(p)] *)
Fixpoint startswith (p s : str) : bool :=
  match p, s with
  | [], _ => true
  | a :: p', b :: s' => (a =? b) && startswith p' s'
  | _ :: _, [] => false
  end.

(** Truth value of a string. *)
Definition nonempty (s : str) : bool :=
  match s with [] => false | _ :: _ => true end.

(** *** Integers as text *)

Fixpoint uint_str (d : Decimal.uint) : str :=
  match d with
  | Decimal.Nil => []
  | Decimal.D0 r => 48 :: uint_str r
  | Decimal.D1 r => 49 :: uint_str r
  | Decimal.D2 r => 50 :: uint_str r
  | Decimal.D3 r => 51 :: uint_str r
  | Decimal.D4 r => 52 :: uint_str r
  | Decimal.D5 r => 53 :: uint_str r
  | Decimal.D6 r => 54 :: uint_str r
  | Decimal.D7 r => 55 :: uint_str r
  | Decimal.D8 r => 56 :: uint_str r
  | Decimal.D9 r => 57 :: uint_str r
  end.

Definition str_of_N (n : N) : str := uint_str (N.to_uint n).

(** [str(z)] for an [int]. *)
Definition str_of_int (z : Z) : str :=
  match z with
  | Zneg p => 45 :: str_of_N (Npos p)
  | _ => str_of_N (Z.to_N z)
  end.

(** Digits least significant first, a comma after every third one that has
    a successor. *)
Fixpoint commas_rev (ds : str) : str :=
  match ds with
  | a :: b :: c :: ((_ :: _) as more) => a :: b :: c :: 44 :: commas_rev more
  | _ => ds
  end.

(** [format(z, ",")], the [{...:,}] field of an f-string, for an [int]. *)
Definition format_commas (z : Z) : str :=
  match z with
  | Zneg p => 45 :: rev (commas_rev (rev (str_of_N (Npos p))))
  | _ => rev (commas_rev (rev (str_of_N (Z.to_N z))))
  end.

End Py.

(** ** The fragment of [re] used by the file

    Patterns are sequences of one-character atoms (a literal, [\s], [\n],
    [.]), each optionally under [*] or [*?], and the anchor [^]. *)

Module Re.

Inductive cls :=
  | Ch (c : N)          (* a literal character *)
  | Space               (* \s *)
  | AnyButNewline.      (* . without DOTALL *)

Inductive item :=
  | One (k : cls)
  | Star (k : cls)      (* greedy k* *)
  | LazyStar (k : cls)  (* k*? *)
  | Bos.                (* ^ without MULTILINE *)

Definition in_cls (k : cls) (c : N) : bool :=
  match k with
  | Ch a => a =? c
  | Space => Py.isspace c
  | AnyButNewline => negb (c =? 10)
  end.

(** *** Reading a pattern

    [pending] is true right after a backslash; [acc] holds the items read so
    far, last one first. Anything outside the fragment is refused. *)
Definition is_meta (c : N) : bool :=
  existsb (N.eqb c) (Py.lit "+()[]{}|$").

Fixpoint parse (p : str) (pending : bool) (acc : list item) : option (list item) :=
  match p with
  | [] => if pending then None else Some (rev acc)
  | c :: p' =>
      if pending then
        if c =? 115 then parse p' false (One Space :: acc)
        else if c =? 110 then parse p' false (One (Ch 10) :: acc)
        else None
      else if c =? 92 then parse p' true acc
      else if c =? 42 then
        match acc with
        | One k :: acc' => parse p' false (Star k :: acc')
        | _ => None
        end
      else if c =? 63 then
        match acc with
        | Star k :: acc' => parse p' false (LazyStar k :: acc')
        | _ => None
        end
      else if c =? 46 then parse p' false (One AnyButNewline :: acc)
      else if c =? 94 then parse p' false (Bos :: acc)
      else if is_meta c then None
      else parse p' false (One (Ch c) :: acc)
  end.

Definition compile (pattern : string) : option (list item) :=
  parse (Py.lit pattern) false [].

(** *** Matching at one position

    [match_at p at0 adv n s] tries [p] on [s], the text from the current
    position on, and returns the number of characters of the first match in
    backtracking order. [at0] says that the search position is the start of
    the string, [n] counts the characters consumed so far, and [adv] is the
    engine's must-advance flag, under which an empty match is refused. *)
Fixpoint match_at (p : list item) (at0 adv : bool) (n : nat) (s : str)
    {struct p} : option nat :=
  match p with
  | [] => if adv && Nat.eqb n 0 then None else Some n
  | One k :: p' =>
      match s with
      | c :: s' => if in_cls k c then match_at p' at0 adv (S n) s' else None
      | [] => None
      end
  | Bos :: p' =>
      if at0 && Nat.eqb n 0 then match_at p' at0 adv n s else None
  | Star k :: p' =>
      (fix more (n : nat) (s : str) {struct s} : option nat :=
         match s with
         | c :: s' =>
             if in_cls k c then
               match more (S n) s' with
               | Some r => Some r
               | None => match_at p' at0 adv n s
               end
             else match_at p' at0 adv n s
         | [] => match_at p' at0 adv n s
         end) n s
  | LazyStar k :: p' =>
      (fix more (n : nat) (s : str) {struct s} : option nat :=
         match match_at p' at0 adv n s with
         | Some r => Some r
         | None =>
             match s with
             | c :: s' => if in_cls k c then more (S n) s' else None
             | [] => None
             end
         end) n s
  end.

(** *** Substitution

    The loop of [re.sub]: search from the end of the previous match, copy
    the text in between, append the replacement. [skip] counts the
    characters of the current match still to be dropped. After an empty
    match the next search starts at the same place under must-advance,
    which holds for the first position tried only. *)
Fixpoint sub_from (p : list item) (repl : str) (at0 : bool) (skip : nat)
    (s : str) {struct s} : str :=
  match skip, s with
  | S k, _ :: s' => sub_from p repl false k s'
  | S _, [] => []
  | O, [] =>
      match match_at p at0 false 0 [] with
      | Some _ => repl
      | None => []
      end
  | O, c :: s' =>
      match match_at p at0 false 0 s with
      | Some (S n) => repl ++ sub_from p repl false n s'
      | Some O =>
          repl ++
          match match_at p at0 true 0 s with
          | Some (S n) => repl ++ sub_from p repl false n s'
          | _ => c :: sub_from p repl false 0 s'
          end
      | None => c :: sub_from p repl false 0 s'
      end
  end.

(** [re.sub(pattern, repl, s)] for a replacement without escapes. A pattern
    outside the fragment leaves [s] as it is; the patterns of the file are
    all inside, see [patterns_compile]. *)
Definition sub (pattern : string) (repl s : str) : str :=
  match compile pattern with
  | Some p => sub_from p repl true 0 s
  | None => s
  end.

End Re.

(** ** Python floats

    A finite double is the dyadic rational [(-1)^neg * m * 2^e]. *)

Module Float.

Inductive pyfloat :=
  | Finite (neg : bool) (m : N) (e : Z)
  | Inf (neg : bool)
  | NaN.

(** Truth value: every float but zero is true. *)
Definition truthy (x : pyfloat) : bool :=
  match x with
  | Finite _ m _ => negb (m =? 0)
  | _ => true
  end.

(** The number of hundredths nearest to [m * 2^e], ties to the even one, as
    [round(x, 2)] picks it from the exact binary value. *)
Definition hundredths (m : N) (e : Z) : N :=
  match e with
  | Zneg p =>
      let den := 2 ^ Npos p in
      let q := (100 * m) / den in
      let r := (100 * m) mod den in
      if 2 * r <? den then q
      else if den <? 2 * r then q + 1
      else if N.even q then q else q + 1
  | _ => 100 * m * 2 ^ Z.to_N e
  end.

(** [f"{round(float(x), 2)}"]: the shortest text of the rounded value, which
    is the rounded decimal itself with at least one digit after the point.
    This holds for magnitudes below 2^46, where neighbouring doubles are
    closer than a hundredth; larger durations are outside the model. *)
Definition round2_str (x : pyfloat) : str :=
  match x with
  | Finite neg m e =>
      let h := hundredths m e in
      let f := h mod 100 in
      (if neg then [45] else [])
      ++ Py.str_of_N (h / 100) ++ [46]
      ++ (if f mod 10 =? 0 then Py.str_of_N (f / 10)
          else Py.str_of_N (f / 10) ++ Py.str_of_N (f mod 10))
  | Inf neg => (if neg then [45] else []) ++ Py.lit "inf"
  | NaN => Py.lit "nan"
  end.

End Float.

(** ** Data model *)

(** An attribute of a Python object as the code inspects it: [hasattr] is
    false, the attribute is [None], or it holds a value. *)
Inductive field (T : Type) :=
  | Missing
  | IsNone
  | Has (v : T).
Arguments Missing {T}.
Arguments IsNone {T}.
Arguments Has {T} v.

(** A Python value that the code only passes to [str()]. *)
Inductive PyObject :=
  | PyStr (s : str)          (* a [str]: [str(s)] is [s] *)
  | PyOther (shown : str).   (* any other object, with what [str()] returns *)

Definition py_str (o : PyObject) : str :=
  match o with
  | PyStr s => s
  | PyOther shown => shown
  end.

(** [ToolCall.arguments]: a [dict] (with what [str()] makes of it as a
    whole) or anything else. *)
Inductive Arguments :=
  | ArgsDict (d : gmap str PyObject) (shown : str)
  | ArgsOther (o : PyObject).

Record ToolCall := {
  name : str;
  arguments : Arguments
}.

(** Modelled from the spec: [ActionStep] is declared in smolagents, not in
    this repository; section 3 of the spec lists the fields, and the code
    reads each one as below. [step_number] is read without [hasattr]. *)
Record ActionStep := {
  step_number : option Z;
  model_output : field str;
  tool_calls : field (list ToolCall);
  observations : field str;
  error : field PyObject;
  input_token_count : field Z;
  output_token_count : field Z;
  duration : field Float.pyfloat
}.

(** What the agent's run yields: action steps, other memory steps, and the
    final answer, which is the last item. *)
Inductive StepLog :=
  | IsActionStep (a : ActionStep)
  | NotActionStep (o : PyObject).

(** [gr.ChatMessage]: the content is text or a [dict] naming a file, the
    metadata a [dict] from keys to text, empty by default. *)
Inductive Content :=
  | Text (s : str)
  | FileDict (d : gmap string str).

Record ChatMessage := {
  role : str;
  content : Content;
  metadata : gmap string str
}.

(** ** Generators over a store of messages

    Messages are objects: [heap] holds them, a reference is an index into
    it. A generator yields references; [seen] records the object as it was
    at the time of the yield, and the consumer reads later states through
    the reference. An assignment to an object that exists is logged in
    [mutations] with the number of messages yielded before it, which is what
    the consumer holds when the assignment runs: a generator runs on only
    when the next message is asked for. *)

Inductive exn :=
  | AttributeError
  | IndexError
  | TypeError
  | UnboundLocalError
  | ModuleNotFoundError.

Inductive result (A : Type) :=
  | Ok (a : A)
  | Raise (e : exn).
Arguments Ok {A} a.
Arguments Raise {A} e.

#[global] Instance result_ret : MRet result := fun A a => Ok a.

#[global] Instance result_bind : MBind result := fun A B k r =>
  match r with
  | Ok a => k a
  | Raise e => Raise e
  end.

Record Yielded := {
  ref : nat;
  seen : ChatMessage
}.

Record Mutation := {
  target : nat;
  field_key : string;
  field_value : str;
  yields_before : nat
}.

Record World := {
  heap : list ChatMessage;
  yielded : list Yielded;
  mutations : list Mutation
}.

Definition Gen (A : Type) : Type := World -> World * result A.

#[global] Instance gen_ret : MRet Gen := fun A a w => (w, Ok a).

#[global] Instance gen_bind : MBind Gen := fun A B k c w =>
  match c w with
  | (w', Ok a) => k a w'
  | (w', Raise e) => (w', Raise e)
  end.

Definition raise {A} (e : exn) : Gen A := fun w => (w, Raise e).

Definition lift {A} (r : result A) : Gen A := fun w => (w, r).

(** [gr.ChatMessage(role="assistant", content=..., metadata=...)]: the
    object, and its allocation. *)
Definition assistant (c : Content) (md : gmap string str) : ChatMessage :=
  {| role := Py.lit "assistant"; content := c; metadata := md |}.

Definition new_ChatMessage (c : Content) (md : gmap string str) : Gen nat :=
  fun w =>
    ({| heap := heap w ++ [assistant c md]; yielded := yielded w;
        mutations := mutations w |},
     Ok (length (heap w))).

(** [yield r] *)
Definition yield (r : nat) : Gen unit := fun w =>
  match heap w !! r with
  | Some m =>
      ({| heap := heap w; yielded := yielded w ++ [{| ref := r; seen := m |}];
          mutations := mutations w |}, Ok tt)
  | None => (w, Ok tt)
  end.

(** [r.metadata[key] = value] *)
Definition with_metadata (key : string) (value : str) (m : ChatMessage) : ChatMessage :=
  {| role := role m; content := content m; metadata := <[key := value]> (metadata m) |}.


Definition set_metadata (r : nat) (key : string) (value : str) : Gen unit :=
  fun w =>
    ({| heap := alter (with_metadata key value) r (heap w); yielded := yielded w;
        mutations := mutations w
                     ++ [{| target := r; field_key := key; field_value := value;
                            yields_before := length (yielded w) |}] |},
     Ok tt).

(** A fresh generator runs in a store that holds whatever was allocated
    before; it has yielded nothing and assigned nothing. *)
Definition run {A} (g : Gen A) (h : list ChatMessage) : World * result A :=
  g {| heap := h; yielded := []; mutations := [] |}.

(** ** [pull_messages_from_step] *)

(** The literals of the function. *)
Definition title_tool : str := Py.lit "🛠️ Used tool ".
Definition title_logs : str := Py.lit "📝 Execution Logs".
Definition title_error : str := Py.lit "💥 Error".
Definition span_open : str :=
  Py.lit "<span style=" ++ Py.dquote ++ Py.lit "color: #bbbbc2; font-size: 12px;"
  ++ Py.dquote ++ Py.lit ">".
Definition span_close : str := Py.lit "</span> ".

(** [s += t], which needs [t] to be a string. *)
Definition iadd (s : str) (t : option str) : result str :=
  match t with
  | Some t => Ok (s ++ t)
  | None => Raise TypeError
  end.

(** [f"{v:,}"] where [v] is the attribute as found: [None] has no such
    format. *)
Definition format_field (v : field Z) : result str :=
  match v with
  | Has z => Ok (Py.format_commas z)
  | _ => Raise TypeError
  end.

(** Lines 67-78: the clean-up of the model output. *)
Definition clean_model_output (model_output : str) : str :=
  let model_output := Py.strip model_output in
  let model_output := Re.sub "```\s*<end_code>" (Py.lit "```") model_output in
  let model_output := Re.sub "<end_code>\s*```" (Py.lit "```") model_output in
  let model_output := Re.sub "```\s*\n\s*<end_code>" (Py.lit "```") model_output in
  Py.strip model_output.

(** Lines 89-93: the text of the arguments. *)
Definition args_content (args : Arguments) : str :=
  match args with
  | ArgsDict d shown => py_str (default (PyStr shown) (d !! Py.lit "answer"))
  | ArgsOther o => Py.strip (py_str o)
  end.

(** Lines 95-105: the content as a python code block. *)
Definition code_content (content : str) : str :=
  let content := Re.sub "```.*?\n" [] content in
  let content := Re.sub "\s*<end_code>\s*" [] content in
  let content := Py.strip content in
  if negb (Py.startswith (Py.lit "```python") content)
  then Py.lit "```python" ++ Py.nl ++ content ++ Py.nl ++ Py.lit "```"
  else content.

(** Lines 159-172: the footnote. *)
Definition step_footnote_of (step_number : str) (a : ActionStep) : result str :=
  let step_footnote := step_number in
  step_footnote ←
    match input_token_count a, output_token_count a with
    | Missing, _ | _, Missing => Ok step_footnote
    | i, o =>
        si ← format_field i;
        so ← format_field o;
        Ok (step_footnote ++ Py.lit " | Input-tokens:" ++ si
            ++ Py.lit " | Output-tokens:" ++ so)
    end;
  step_footnote ←
    match duration a with
    | Missing => Ok step_footnote
    | IsNone => iadd step_footnote None
    | Has d =>
        let step_duration :=
          if Float.truthy d
          then Some (Py.lit " | Duration: " ++ Float.round2_str d)
          else None in
        iadd step_footnote step_duration
    end;
  Ok (span_open ++ step_footnote ++ span_close).

Definition pull_messages_from_step (step_log : StepLog) : Gen unit :=
  match step_log with
  | NotActionStep _ => mret tt
  | IsActionStep a =>
      let step_number :=
        match step_number a with
        | Some n => Py.lit "Step " ++ Py.str_of_int n
        | None => []
        end in
      m ← new_ChatMessage (Text (Py.lit "**" ++ step_number ++ Py.lit "**")) ∅;
      yield m;;
      match model_output a with
      | Has model_output =>
          m ← new_ChatMessage (Text (clean_model_output model_output)) ∅;
          yield m
      | _ => mret tt
      end;;
      match tool_calls a with
      | Has calls =>
          first_tool_call ←
            match calls with
            | c :: _ => mret c
            | [] => raise IndexError
            end;
          let used_code := bool_decide (name first_tool_call = Py.lit "python_interpreter") in
          let parent_id := Py.lit "call_" ++ Py.str_of_N (N.of_nat (length calls)) in
          let content := args_content (arguments first_tool_call) in
          let content := if used_code then code_content content else content in
          parent_message_tool ←
            new_ChatMessage (Text content)
              {[ "title" := title_tool ++ name first_tool_call;
                 "id" := parent_id;
                 "status" := Py.lit "pending" ]};
          yield parent_message_tool;;
          match observations a with
          | Has obs =>
              if Py.nonempty (Py.strip obs) then
                let log_content := Py.strip obs in
                if Py.nonempty log_content then
                  let log_content := Re.sub "^Execution logs:\s*" [] log_content in
                  m ← new_ChatMessage (Text log_content)
                        {[ "title" := title_logs;
                           "parent_id" := parent_id;
                           "status" := Py.lit "done" ]};
                  yield m
                else mret tt
              else mret tt
          | _ => mret tt
          end;;
          match error a with
          | Has e =>
              m ← new_ChatMessage (Text (py_str e))
                    {[ "title" := title_error;
                       "parent_id" := parent_id;
                       "status" := Py.lit "done" ]};
              yield m
          | _ => mret tt
          end;;
          set_metadata parent_message_tool "status" (Py.lit "done")
      | _ =>
          match error a with
          | Has e =>
              m ← new_ChatMessage (Text (py_str e)) {[ "title" := title_error ]};
              yield m
          | _ => mret tt
          end
      end;;
      step_footnote ← lift (step_footnote_of step_number a);
      m ← new_ChatMessage (Text step_footnote) ∅;
      yield m;;
      m ← new_ChatMessage (Text (Py.lit "-----")) ∅;
      yield m
  end.

(** ** [stream_to_gradio] *)

(** [agent.model], as far as the token counters go. *)
Record Model := {
  last_input_token_count : field Z;
  last_output_token_count : field Z
}.

(** Modelled from the spec: the classes [AgentText], [AgentImage] and
    [AgentAudio] are declared in smolagents; section 3 of the spec gives the
    four variants and what each carries. [to_string] is the text, or the
    path of the file. *)
Inductive FinalAnswer :=
  | AgentText (to_string : str)
  | AgentImage (to_string : str)
  | AgentAudio (to_string : str)
  | Unwrapped (o : PyObject).

(** The local variables of the function; [step_log] is unbound until the
    loop has bound it. *)
Record Locals := {
  total_input_tokens : Z;
  total_output_tokens : Z;
  step_log : option StepLog
}.

(** [t += v] on an [int] total, where [v] is the attribute as found. *)
Definition add_count (t : Z) (v : field Z) : result Z :=
  match v with
  | Has z => Ok (t + z)%Z
  | IsNone => Raise TypeError
  | Missing => Raise AttributeError
  end.

(** Lines 197-202: the totals after the step, and the step as stamped. *)
Definition track_tokens (l : Locals) (step_log : StepLog) (model : Model)
    : result (Z * Z * StepLog) :=
  match last_input_token_count model with
  | Missing => Ok (total_input_tokens l, total_output_tokens l, step_log)
  | _ =>
      total_input_tokens ← add_count (total_input_tokens l) (last_input_token_count model);
      total_output_tokens ← add_count (total_output_tokens l) (last_output_token_count model);
      match step_log with
      | IsActionStep a =>
          Ok (total_input_tokens, total_output_tokens,
              IsActionStep
                {| step_number := step_number a;
                   model_output := model_output a;
                   tool_calls := tool_calls a;
                   observations := observations a;
                   error := error a;
                   input_token_count := last_input_token_count model;
                   output_token_count := last_output_token_count model;
                   duration := duration a |})
      | NotActionStep _ => Ok (total_input_tokens, total_output_tokens, step_log)
      end
  end.

(** One turn of the loop, lines 193-207. The agent's run is given as the
    items it yields, each with the model as it stands at that moment. *)
Definition loop_body (l : Locals) (item : StepLog * Model) : Gen Locals :=
  let '(step_log, model) := item in
  '(total_input_tokens, total_output_tokens, step_log) ←
    lift (track_tokens l step_log model);
  pull_messages_from_step step_log;;
  mret {| total_input_tokens := total_input_tokens;
          total_output_tokens := total_output_tokens;
          step_log := Some step_log |}.

Fixpoint for_loop (items : list (StepLog * Model)) (l : Locals) : Gen Locals :=
  match items with
  | [] => mret l
  | item :: items' => l' ← loop_body l item; for_loop items' l'
  end.

(** Lines 212-230: the message of the final answer. *)
Definition yield_final_answer (final_answer : FinalAnswer) : Gen unit :=
  match final_answer with
  | AgentText to_string =>
      m ← new_ChatMessage
            (Text (Py.lit "**Final answer:**" ++ Py.nl ++ to_string ++ Py.nl)) ∅;
      yield m
  | AgentImage to_string =>
      m ← new_ChatMessage
            (FileDict {[ "path" := to_string; "mime_type" := Py.lit "image/png" ]}) ∅;
      yield m
  | AgentAudio to_string =>
      m ← new_ChatMessage
            (FileDict {[ "path" := to_string; "mime_type" := Py.lit "audio/wav" ]}) ∅;
      yield m
  | Unwrapped o =>
      m ← new_ChatMessage (Text (Py.lit "**Final answer:** " ++ py_str o)) ∅;
      yield m
  end.

Section Stream.

(** [handle_agent_output_types] belongs to smolagents: it wraps a value in
    one of the agent types or leaves it as it is. *)
Variable handle_agent_output_types : StepLog -> FinalAnswer.

(** [gradio_available] is [_is_package_available("gradio")]. *)
Definition stream_to_gradio (gradio_available : bool)
    (agent_run : list (StepLog * Model)) : Gen unit :=
  if negb gradio_available then raise ModuleNotFoundError
  else
    l ← for_loop agent_run
          {| total_input_tokens := 0; total_output_tokens := 0; step_log := None |};
    final_answer ←
      match step_log l with
      | Some step_log => mret step_log
      | None => raise UnboundLocalError
      end;
    let final_answer := handle_agent_output_types final_answer in
    yield_final_answer final_answer.

End Stream.

(** ** Vocabulary for the statements

    [push w m] is the world after a message [m] is created and yielded;
    the other definitions name the messages of a step and the worlds between
    its phases. *)

Definition push (w : World) (m : ChatMessage) : World :=
  {| heap := heap w ++ [m];
     yielded := yielded w ++ [{| ref := length (heap w); seen := m |}];
     mutations := mutations w |}.

Definition mark_done (r : nat) (w : World) : World :=
  {| heap := alter (with_metadata "status" (Py.lit "done")) r (heap w);
     yielded := yielded w;
     mutations := mutations w
                  ++ [{| target := r; field_key := "status";
                         field_value := Py.lit "done";
                         yields_before := length (yielded w) |}] |}.

Definition label (a : ActionStep) : str :=
  match step_number a with
  | Some n => Py.lit "Step " ++ Py.str_of_int n
  | None => []
  end.

Definition footer (a : ActionStep) (w : World) : World * result unit :=
  match step_footnote_of (label a) a with
  | Ok f => (push (push w (assistant (Text f) ∅)) (assistant (Text (Py.lit "-----")) ∅), Ok tt)
  | Raise e => (w, Raise e)
  end.

Definition parent_message (c : ToolCall) (n : nat) : ChatMessage :=
  assistant
    (Text (if bool_decide (name c = Py.lit "python_interpreter")
           then code_content (args_content (arguments c))
           else args_content (arguments c)))
    {[ "title" := title_tool ++ name c;
       "id" := Py.lit "call_" ++ Py.str_of_N (N.of_nat n);
       "status" := Py.lit "pending" ]}.

Definition child_message (title body : str) (n : nat) : ChatMessage :=
  assistant (Text body)
    {[ "title" := title;
       "parent_id" := Py.lit "call_" ++ Py.str_of_N (N.of_nat n);
       "status" := Py.lit "done" ]}.

Definition after_header (a : ActionStep) (w : World) : World :=
  let w1 := push w (assistant (Text (Py.lit "**" ++ label a ++ Py.lit "**")) ∅) in
  match model_output a with
  | Has mo => push w1 (assistant (Text (clean_model_output mo)) ∅)
  | _ => w1
  end.

Definition after_children (a : ActionStep) (n : nat) (w : World) : World :=
  let w4 :=
    match observations a with
    | Has obs =>
        if Py.nonempty (Py.strip obs)
        then push w (child_message title_logs
                       (Re.sub "^Execution logs:\s*" [] (Py.strip obs)) n)
        else w
    | _ => w
    end in
  match error a with
  | Has e => push w4 (child_message title_error (py_str e) n)
  | _ => w4
  end.

(** The references handed out for a run of fresh messages, [k] being the
    first free index of the store. *)
Fixpoint refs (k : nat) (ms : list ChatMessage) : list Yielded :=
  match ms with
  | [] => []
  | m :: ms' => {| ref := k; seen := m |} :: refs (S k) ms'
  end.

Definition extend (w : World) (ms : list ChatMessage) : World :=
  {| heap := heap w ++ ms; yielded := yielded w ++ refs (length (heap w)) ms;
     mutations := mutations w |}.

Definition header_messages (a : ActionStep) : list ChatMessage :=
  assistant (Text (Py.lit "**" ++ label a ++ Py.lit "**")) ∅ ::
  match model_output a with
  | Has mo => [assistant (Text (clean_model_output mo)) ∅]
  | _ => []
  end.

Definition children_messages (a : ActionStep) (n : nat) : list ChatMessage :=
  match observations a with
  | Has obs =>
      if Py.nonempty (Py.strip obs)
      then [child_message title_logs (Re.sub "^Execution logs:\s*" [] (Py.strip obs)) n]
      else []
  | _ => []
  end ++
  match error a with
  | Has e => [child_message title_error (py_str e) n]
  | _ => []
  end.

Definition standalone_messages (a : ActionStep) : list ChatMessage :=
  match error a with
  | Has e => [assistant (Text (py_str e)) {[ "title" := title_error ]}]
  | _ => []
  end.

Definition footer_messages (a : ActionStep) : list ChatMessage :=
  match step_footnote_of (label a) a with
  | Ok f => [assistant (Text f) ∅; assistant (Text (Py.lit "-----")) ∅]
  | Raise _ => []
  end.

Definition footer_outcome (a : ActionStep) : result unit :=
  match step_footnote_of (label a) a with
  | Ok _ => Ok tt
  | Raise e => Raise e
  end.

(** What a step yields, each message as it is when yielded. *)
Definition step_messages (a : ActionStep) : list ChatMessage :=
  header_messages a ++
  match tool_calls a with
  | Has [] => []
  | Has (c :: cs) =>
      parent_message c (length (c :: cs))
        :: children_messages a (length (c :: cs)) ++ footer_messages a
  | _ => standalone_messages a ++ footer_messages a
  end.

Definition step_outcome (a : ActionStep) : result unit :=
  match tool_calls a with
  | Has [] => Raise IndexError
  | _ => footer_outcome a
  end.

(** The store after the step: the messages are appended, and the parent of
    a tool call, which sits right after the header messages, is done. *)
Definition step_heap (a : ActionStep) (h : list ChatMessage) : list ChatMessage :=
  match tool_calls a with
  | Has (_ :: _) =>
      alter (with_metadata "status" (Py.lit "done"))
        (length h + length (header_messages a))%nat (h ++ step_messages a)
  | _ => h ++ step_messages a
  end.

(** The assignments of the step, for a store of [k] messages and after [n]
    yields: the status of the parent, once the header, the parent and the
    children are out. *)
Definition step_mutations (a : ActionStep) (k n : nat) : list Mutation :=
  match tool_calls a with
  | Has (c :: cs) =>
      [{| target := k + length (header_messages a);
          field_key := "status";
          field_value := Py.lit "done";
          yields_before := n + length (header_messages a) + 1
                           + length (children_messages a (length (c :: cs))) |}]
  | _ => []
  end.

Definition end_code : str := Py.lit "<end_code>".
Definition fence : str := Py.lit "```".

(** The step as the loop hands it to the extractor once the model reports
    its counts [i] and [o]. *)
Definition stamped (step_log : StepLog) (i o : Z) : StepLog :=
  match step_log with
  | IsActionStep a =>
      IsActionStep
        {| step_number := step_number a;
           model_output := model_output a;
           tool_calls := tool_calls a;
           observations := observations a;
           error := error a;
           input_token_count := Has i;
           output_token_count := Has o;
           duration := duration a |}
  | NotActionStep _ => step_log
  end.

(** ** Sample inputs *)

Module Samples.

Definition bare : ActionStep :=
  {| step_number := Some 1%Z; model_output := Missing; tool_calls := Missing;
     observations := Missing; error := Missing;
     input_token_count := Missing; output_token_count := Missing;
     duration := Missing |}.

Definition print_call : ToolCall :=
  {| name := Py.lit "python_interpreter";
     arguments := ArgsDict {[ Py.lit "answer" := PyStr (Py.lit "print(1)") ]}
                    (Py.lit "{'answer': 'print(1)'}") |}.

(** The double nearest to 1.236, that is 0x1.3c6a7ef9db22dp+0. *)
Definition d1236 : Float.pyfloat := Float.Finite false 5566449139429933 (-52).

Definition zero : Float.pyfloat := Float.Finite false 0 0.

Definition with_calls (calls : list ToolCall) (obs : field str) (err : field PyObject)
    : ActionStep :=
  {| step_number := Some 1%Z; model_output := Missing; tool_calls := Has calls;
     observations := obs; error := err;
     input_token_count := Missing; output_token_count := Missing;
     duration := Missing |}.

Definition zero_duration : ActionStep :=
  {| step_number := Some 1%Z; model_output := Missing; tool_calls := Missing;
     observations := Missing; error := Missing;
     input_token_count := Missing; output_token_count := Missing;
     duration := Has zero |}.

Definition thinking (mo : str) : ActionStep :=
  {| step_number := Some 1%Z; model_output := Has mo; tool_calls := Missing;
     observations := Missing; error := Missing;
     input_token_count := Missing; output_token_count := Missing;
     duration := Missing |}.

Definition measured : ActionStep :=
  {| step_number := Some 1%Z; model_output := Missing; tool_calls := Missing;
     observations := Missing; error := Missing;
     input_token_count := Has 1200%Z; output_token_count := Has 5%Z;
     duration := Has d1236 |}.

Definition logged_and_failed : ActionStep :=
  with_calls [print_call]
    (Has (Py.lit "Execution logs:" ++ Py.nl ++ Py.lit "1"))
    (Has (PyOther (Py.lit "boom"))).

Definition counting : Model :=
  {| last_input_token_count := Has 10%Z; last_output_token_count := Has 1%Z |}.

Definition so_far : Locals :=
  {| total_input_tokens := 100; total_output_tokens := 7; step_log := None |}.

End Samples.

(** ** Further vocabulary: when a step goes through *)

(** The footnote's token part formats: both counts are there as integers,
    or one of the two attributes is missing and the part is skipped. *)
Definition tokens_format (a : ActionStep) : bool :=
  match input_token_count a, output_token_count a with
  | Missing, _ | _, Missing => true
  | Has _, Has _ => true
  | _, _ => false
  end.

(** The footnote's duration part can be added: the attribute is missing, or
    it holds a float that is true. *)
Definition duration_adds (a : ActionStep) : bool :=
  match duration a with
  | Missing => true
  | IsNone => false
  | Has d => Float.truthy d
  end.

(** A message that is not the parent of a tool call: it is not pending,
    and its title is not that of a tool. *)
Definition settled (m : ChatMessage) : Prop :=
  metadata m !! "status" ≠ Some (Py.lit "pending")
  ∧ ∀ n, metadata m !! "title" ≠ Some (title_tool ++ n).

(** [step_log.tool_calls = calls], all else as in [a]. *)
Definition with_tool_calls (a : ActionStep) (calls : field (list ToolCall)) : ActionStep :=
  {| step_number := step_number a;
     model_output := model_output a;
     tool_calls := calls;
     observations := observations a;
     error := error a;
     input_token_count := input_token_count a;
     output_token_count := output_token_count a;
     duration := duration a |}.

(** The prefix that line 124 removes from the observations. *)
Definition logs_prefix : str := Py.lit "Execution logs:".

(** ** Further vocabulary: the run as a whole *)

(** What one turn of the loop passes on: the item, stamped with the counts
    of the model when it exposes them. Reading a counter that is [None], or
    an output counter that is missing, raises. *)
Definition item_step (item : StepLog * Model) : result StepLog :=
  match last_input_token_count item.2 with
  | Missing => Ok item.1
  | IsNone => Raise TypeError
  | Has i =>
      match last_output_token_count item.2 with
      | Has o => Ok (stamped item.1 i o)
      | IsNone => Raise TypeError
      | Missing => Raise AttributeError
      end
  end.

(** The counts that the turn adds to the totals. *)
Definition item_counts (item : StepLog * Model) : Z * Z :=
  match last_input_token_count item.2, last_output_token_count item.2 with
  | Has i, Has o => (i, o)
  | _, _ => (0, 0)%Z
  end.

Definition log_messages (s : StepLog) : list ChatMessage :=
  match s with
  | IsActionStep a => step_messages a
  | NotActionStep _ => []
  end.

Definition log_outcome (s : StepLog) : result unit :=
  match s with
  | IsActionStep a => step_outcome a
  | NotActionStep _ => Ok tt
  end.

Definition log_heap (s : StepLog) (h : list ChatMessage) : list ChatMessage :=
  match s with
  | IsActionStep a => step_heap a h
  | NotActionStep _ => h
  end.

Definition log_mutations (s : StepLog) (k n : nat) : list Mutation :=
  match s with
  | IsActionStep a => step_mutations a k n
  | NotActionStep _ => []
  end.

(** How the turn for an item ends. *)
Definition item_outcome (item : StepLog * Model) : result unit :=
  s ← item_step item; log_outcome s.

(** The messages of a run, up to and including those of the first item that
    raises. *)
Fixpoint loop_messages (items : list (StepLog * Model)) : list ChatMessage :=
  match items with
  | [] => []
  | item :: items' =>
      match item_step item with
      | Raise _ => []
      | Ok s =>
          log_messages s ++
          match log_outcome s with
          | Ok _ => loop_messages items'
          | Raise _ => []
          end
      end
  end.

Fixpoint loop_heap (items : list (StepLog * Model)) (h : list ChatMessage)
    : list ChatMessage :=
  match items with
  | [] => h
  | item :: items' =>
      match item_step item with
      | Raise _ => h
      | Ok s =>
          match log_outcome s with
          | Ok _ => loop_heap items' (log_heap s h)
          | Raise _ => log_heap s h
          end
      end
  end.

(** The assignments of a run, for a store of [k] messages and after [n]
    yields. *)
Fixpoint loop_mutations (items : list (StepLog * Model)) (k n : nat) : list Mutation :=
  match items with
  | [] => []
  | item :: items' =>
      match item_step item with
      | Raise _ => []
      | Ok s =>
          log_mutations s k n ++
          match log_outcome s with
          | Ok _ =>
              loop_mutations items' (k + length (log_messages s))
                (n + length (log_messages s))
          | Raise _ => []
          end
      end
  end.

(** The exception of the first item that raises. *)
Fixpoint loop_failure (items : list (StepLog * Model)) : option exn :=
  match items with
  | [] => None
  | item :: items' =>
      match item_outcome item with
      | Raise e => Some e
      | Ok _ => loop_failure items'
      end
  end.

(** The locals after a run in which nothing raises. *)
Fixpoint loop_locals (items : list (StepLog * Model)) (l : Locals) : Locals :=
  match items with
  | [] => l
  | item :: items' =>
      loop_locals items'
        {| total_input_tokens := total_input_tokens l + (item_counts item).1;
           total_output_tokens := total_output_tokens l + (item_counts item).2;
           step_log := match item_step item with
                       | Ok s => Some s
                       | Raise _ => step_log l
                       end |}
  end.

(** The message of the final answer. *)
Definition final_message (final_answer : FinalAnswer) : ChatMessage :=
  assistant
    match final_answer with
    | AgentText text => Text (Py.lit "**Final answer:**" ++ Py.nl ++ text ++ Py.nl)
    | AgentImage path => FileDict {[ "path" := path; "mime_type" := Py.lit "image/png" ]}
    | AgentAudio path => FileDict {[ "path" := path; "mime_type" := Py.lit "audio/wav" ]}
    | Unwrapped value => Text (Py.lit "**Final answer:** " ++ py_str value)
    end ∅.

Definition initial_locals : Locals :=
  {| total_input_tokens := 0; total_output_tokens := 0; step_log := None |}.

(** The item as the extractor and the final-answer phase get to see it. *)
Definition observed (item : StepLog * Model) : StepLog :=
  match last_input_token_count item.2, last_output_token_count item.2 with
  | Has i, Has o => stamped item.1 i o
  | _, _ => item.1
  end.


(** ** [GradioUI.interact_with_agent]

    The caller's [messages] list is one object, holding references into the
    store; every [yield messages] hands out this same list, and [shown]
    records what it holds at that moment. The streamer's messages are
    appended in the order in which it yields them. The import of gradio
    succeeds, the object having been built with it; [gradio_available] is
    what the streamer's own test answers. *)

Record Chat := {
  store : list ChatMessage;
  messages : list nat;
  shown : list (list nat)
}.

(** How the generator ends: normally, or with [gr.Error] and its text. *)
Inductive Ending :=
  | Finished
  | GrError (message : str).

(** [gr.ChatMessage(role="user", content=prompt)] *)
Definition user_message (prompt : str) : ChatMessage :=
  {| role := Py.lit "user"; content := Text prompt; metadata := ∅ |}.

Definition out_of_credits : str :=
  Py.lit "Due to the high demand for Your Cyberpunk Local Time Terminal, the space has run out of computing credits. The technician has been notified. Please try again later. You can sponsor the project at github.com/sponsors/crcdng. Thank you for your patience.".

(** [messages.append(msg); yield messages], for each message in turn. *)
Fixpoint append_and_show (msgs : list Yielded) (messages : list nat)
    (shown : list (list nat)) : list nat * list (list nat) :=
  match msgs with
  | [] => (messages, shown)
  | msg :: msgs' =>
      let messages := messages ++ [ref msg] in
      append_and_show msgs' messages (shown ++ [messages])
  end.

Section Interact.

Variable handle_agent_output_types : StepLog -> FinalAnswer.

Definition interact_with_agent (gradio_available : bool)
    (agent_run : list (StepLog * Model)) (prompt : str)
    (store : list ChatMessage) (messages : list nat) : Chat * Ending :=
  let user := length store in
  let store := store ++ [user_message prompt] in
  let messages := messages ++ [user] in
  let shown := [messages] in
  let '(w, outcome) :=
    run (stream_to_gradio handle_agent_output_types gradio_available agent_run) store in
  let '(messages, shown) := append_and_show (yielded w) messages shown in
  match outcome with
  | Ok _ =>
      ({| store := heap w; messages := messages; shown := shown ++ [messages] |},
       Finished)
  | Raise _ =>
      ({| store := heap w; messages := messages; shown := shown |},
       GrError out_of_credits)
  end.

End Interact.


(** ** [GradioUI.upload_file]

    The libraries are parameters: the unicode table behind [\w], the guess
    of [mimetypes], the path functions of [os.path], the table
    [mimetypes.types_map] in its iteration order, and whether the copy
    fails. *)

(** [s.split(".")] *)
Fixpoint split_dot (s : str) : list str :=
  match s with
  | [] => [[]]
  | c :: s' =>
      if c =? 46 then [] :: split_dot s'
      else
        match split_dot s' with
        | seg :: segs => (c :: seg) :: segs
        | [] => [[c]]
        end
  end.

(** The loop over [types_map]: a type keeps the first extension met. *)
Fixpoint fill_type_to_ext (types_map : list (str * str)) (type_to_ext : gmap str str)
    : gmap str str :=
  match types_map with
  | [] => type_to_ext
  | (ext, t) :: types_map' =>
      fill_type_to_ext types_map'
        match type_to_ext !! t with
        | Some _ => type_to_ext
        | None => <[t := ext]> type_to_ext
        end
  end.

(** What [mimetypes.guess_type] does: it raises, with a message, or returns
    a type or [None]. *)
Inductive Guess :=
  | GuessRaises (message : str)
  | Guessed (mime_type : option str).

Inductive UploadError :=
  | KeyError          (* type_to_ext[mime_type] *)
  | JoinTypeError     (* os.path.join(None, ...) *)
  | CopyError.        (* shutil.copy *)

(** The text of the status box and the new log, with the copy that was
    made, or the exception. *)
Inductive Upload :=
  | Returned (status : str) (file_uploads_log : list str) (copied : option (str * str))
  | Failed (e : UploadError).

Definition default_allowed_file_types : list str :=
  [Py.lit "application/pdf";
   Py.lit "application/vnd.openxmlformats-officedocument.wordprocessingml.document";
   Py.lit "text/plain"].

Section Upload.

Variable isalnum : N -> bool.
Variable guess_type : str -> Guess.
Variable basename : str -> str.
Variable join : str -> str -> str.
Variable types_map : list (str * str).
Variable copy_fails : str -> str -> bool.

(** A character that [[^\w\-.]] does not match. *)
Definition kept (c : N) : bool :=
  isalnum c || (c =? 95) || (c =? 45) || (c =? 46).

(** [re.sub(r"[^\w\-.]", "_", name)] *)
Definition sanitize (name : str) : str :=
  map (fun c => if kept c then c else 95) name.

(** Lines 288-300: the name under which the file is stored. *)
Definition stored_name (original_name ext : str) : str :=
  let sanitized_name := sanitize original_name in
  let sanitized_name := removelast (split_dot sanitized_name) in
  let sanitized_name := sanitized_name ++ [ext] in
  concat sanitized_name.

Definition upload_file (file_upload_folder : option str) (file : option str)
    (file_uploads_log : list str) (allowed_file_types : list str) : Upload :=
  match file with
  | None => Returned (Py.lit "No file uploaded") file_uploads_log None
  | Some name =>
      match guess_type name with
      | GuessRaises e => Returned (Py.lit "Error: " ++ e) file_uploads_log None
      | Guessed mime_type =>
          match mime_type with
          | None => Returned (Py.lit "File type disallowed") file_uploads_log None
          | Some t =>
              if negb (bool_decide (t ∈ allowed_file_types))
              then Returned (Py.lit "File type disallowed") file_uploads_log None
              else
                let original_name := basename name in
                let type_to_ext := fill_type_to_ext types_map ∅ in
                match type_to_ext !! t with
                | None => Failed KeyError
                | Some ext =>
                    let sanitized_name := stored_name original_name ext in
                    match file_upload_folder with
                    | None => Failed JoinTypeError
                    | Some folder =>
                        let file_path := join folder (basename sanitized_name) in
                        if copy_fails name file_path then Failed CopyError
                        else
                          Returned (Py.lit "File uploaded: " ++ file_path)
                            (file_uploads_log ++ [file_path])
                            (Some (name, file_path))
                    end
                end
          end
      end
  end.

End Upload.

(** ** More sample inputs *)

Module MoreSamples.

(** A model that reports [None] for its counts. *)
Definition unset : Model :=
  {| last_input_token_count := IsNone; last_output_token_count := IsNone |}.

Definition answer : StepLog := NotActionStep (PyStr (Py.lit "12:00")).

(** [handle_agent_output_types] on plain values: text is wrapped. *)
Definition handle (s : StepLog) : FinalAnswer :=
  match s with
  | NotActionStep (PyStr text) => AgentText text
  | NotActionStep o => Unwrapped o
  | IsActionStep _ => Unwrapped (PyOther (Py.lit "ActionStep"))
  end.

(** The letters and digits of ASCII. *)
Definition isalnum (c : N) : bool :=
  ((48 <=? c) && (c <=? 57)) || ((65 <=? c) && (c <=? 90)) || ((97 <=? c) && (c <=? 122)).

Definition guess_type (name : str) : Guess := Guessed (Some (Py.lit "text/plain")).

(** Names without a directory part. *)
Definition basename (path : str) : str := path.

Definition join (folder name : str) : str := folder ++ Py.lit "/" ++ name.

Definition types_map : list (str * str) :=
  [(Py.lit ".pdf", Py.lit "application/pdf");
   (Py.lit ".txt", Py.lit "text/plain");
   (Py.lit ".text", Py.lit "text/plain")].

Definition copy_fails (src dst : str) : bool := false.

End MoreSamples.

(** ** Laws of the generator monad *)

Section GenLaws.
Context {A B C : Type}.

Lemma ret_bind (a : A) (k : A → Gen B) w : (mret a ≫= k) w = k a w.
Proof. reflexivity. Qed.

Lemma raise_bind e (k : A → Gen B) w : (raise e ≫= k) w = (w, Raise e).
Proof. reflexivity. Qed.

Lemma lift_bind (r : result A) (k : A → Gen B) w :
  (lift r ≫= k) w = match r with Ok a => k a w | Raise e => (w, Raise e) end.
Proof. by destruct r. Qed.

Lemma bind_assoc (c : Gen A) (k1 : A → Gen B) (k2 : B → Gen C) w :
  ((c ≫= k1) ≫= k2) w = (c ≫= λ x, k1 x ≫= k2) w.
Proof. unfold mbind, gen_bind. by destruct (c w) as [w' [x|e]]. Qed.

Lemma new_yield c md w :
  (m ← new_ChatMessage c md; yield m) w = (push w (assistant c md), Ok tt).
Proof.
  unfold mbind, gen_bind, new_ChatMessage, yield, push; cbn [heap yielded].
  by rewrite list_lookup_middle.
Qed.

Lemma new_yield_bind c md (k : unit → Gen A) w :
  ((m ← new_ChatMessage c md; yield m) ≫= k) w = k tt (push w (assistant c md)).
Proof.
  change (match (m ← new_ChatMessage c md; yield m) w with
          | (w', Ok a) => k a w'
          | (w', Raise e) => (w', Raise e)
          end = k tt (push w (assistant c md))).
  by rewrite new_yield.
Qed.

Lemma new_yield_then c md (k : nat → unit → Gen A) w :
  (m ← new_ChatMessage c md; yield m ≫= k m) w
  = k (length (heap w)) tt (push w (assistant c md)).
Proof.
  unfold mbind, gen_bind, new_ChatMessage, yield, push; cbn [heap yielded].
  by rewrite list_lookup_middle.
Qed.

Lemma new_yield_then_bind c md (k : nat → unit → Gen A) (k' : A → Gen B) w :
  ((m ← new_ChatMessage c md; yield m ≫= k m) ≫= k') w
  = (k (length (heap w)) tt ≫= k') (push w (assistant c md)).
Proof.
  change (match (m ← new_ChatMessage c md; yield m ≫= k m) w with
          | (w', Ok a) => k' a w'
          | (w', Raise e) => (w', Raise e)
          end = (k (length (heap w)) tt ≫= k') (push w (assistant c md))).
  by rewrite new_yield_then.
Qed.

Lemma set_metadata_bind r (k : unit → Gen A) w :
  (set_metadata r "status" (Py.lit "done") ≫= k) w = k tt (mark_done r w).
Proof. reflexivity. Qed.

End GenLaws.

Ltac gen_step :=
  first [ rewrite new_yield_then_bind | rewrite new_yield_then
        | rewrite new_yield_bind | rewrite new_yield
        | rewrite set_metadata_bind
        | rewrite ret_bind | rewrite raise_bind | rewrite lift_bind
        | rewrite bind_assoc ];
  cbv beta.

Lemma footer_eq a w :
  (step_footnote ← lift (step_footnote_of (label a) a);
   m ← new_ChatMessage (Text step_footnote) ∅;
   yield m;;
   m ← new_ChatMessage (Text (Py.lit "-----")) ∅;
   yield m) w = footer a w.
Proof.
  unfold footer. rewrite lift_bind.
  destruct (step_footnote_of _ _); [|done].
  by rewrite new_yield_then, new_yield.
Qed.

Lemma pull_action a w :
  pull_messages_from_step (IsActionStep a) w =
    let w2 := after_header a w in
    match tool_calls a with
    | Has [] => (w2, Raise IndexError)
    | Has (c :: cs) =>
        let n := length (c :: cs) in
        footer a (mark_done (length (heap w2))
                    (after_children a n (push w2 (parent_message c n))))
    | _ =>
        footer a
          match error a with
          | Has e => push w2 (assistant (Text (py_str e)) {[ "title" := title_error ]})
          | _ => w2
          end
    end.
Proof.
  unfold pull_messages_from_step. cbv zeta. fold (label a).
  unfold after_header, after_children.
  gen_step.
  destruct (model_output a); repeat gen_step;
    (match goal with |- _ ?x = _ => generalize x; intros w2 end);
    (destruct (tool_calls a) as [| |[|c cs]];
     [ | | repeat gen_step; reflexivity
       | destruct (observations a) as [| |obs];
         [| |destruct (Py.nonempty (Py.strip obs))] ]);
    destruct (error a);
    repeat (first [rewrite footer_eq | gen_step]); reflexivity.
Qed.

(** ** Facts about the patterns *)

Lemma patterns_compile :
  Forall (λ p, is_Some (Re.compile p))
    ["```\s*<end_code>"; "<end_code>\s*```"; "```\s*\n\s*<end_code>";
     "```.*?\n"; "\s*<end_code>\s*"; "^Execution logs:\s*"]%string.
Proof. repeat constructor; vm_compute; eauto. Qed.

(** unfolding equations *)
Lemma match_at_star_cons k p at0 adv n c s :
  Re.match_at (Re.Star k :: p) at0 adv n (c :: s) =
    if Re.in_cls k c then
      match Re.match_at (Re.Star k :: p) at0 adv (S n) s with
      | Some r => Some r
      | None => Re.match_at p at0 adv n (c :: s)
      end
    else Re.match_at p at0 adv n (c :: s).
Proof. reflexivity. Qed.

Lemma match_at_star_nil k p at0 adv n :
  Re.match_at (Re.Star k :: p) at0 adv n [] = Re.match_at p at0 adv n [].
Proof. reflexivity. Qed.

(** A greedy [\s*] runs over a whole stretch of whitespace when the rest of
    the pattern matches right after it. *)
Lemma match_at_spaces p at0 adv ws : ∀ n rest r,
  Forall (λ c, Py.isspace c = true) ws →
  match rest with c :: _ => Py.isspace c = false | [] => True end →
  Re.match_at p at0 adv (n + length ws) rest = Some r →
  Re.match_at (Re.Star Re.Space :: p) at0 adv n (ws ++ rest) = Some r.
Proof.
  induction ws as [|c ws IH]; intros n rest r Hws Hrest Hm.
  - rewrite Nat.add_0_r in Hm. destruct rest as [|c rest]; simpl app.
    + by rewrite match_at_star_nil.
    + rewrite match_at_star_cons. simpl Re.in_cls. by rewrite Hrest.
  - inversion_clear Hws as [|?? Hc Hws'].
    simpl app. rewrite match_at_star_cons. simpl Re.in_cls. rewrite Hc.
    rewrite (IH (S n) rest r); auto.
    by rewrite <- Hm; f_equal; simpl; lia.
Qed.

Lemma sub_from_skip p repl : ∀ s k,
  (k ≤ length s)%nat →
  Re.sub_from p repl false k s = Re.sub_from p repl false 0 (drop k s).
Proof.
  induction s as [|c s IH]; intros [|k] Hk; try reflexivity.
  - simpl in Hk. lia.
  - simpl in *. apply IH. lia.
Qed.

Lemma sub_from_miss p repl at0 c s :
  Re.match_at p at0 false 0 (c :: s) = None →
  Re.sub_from p repl at0 0 (c :: s) = c :: Re.sub_from p repl false 0 s.
Proof. intros H. simpl. by rewrite H. Qed.

Lemma sub_from_hit p repl at0 c s n :
  Re.match_at p at0 false 0 (c :: s) = Some (S n) →
  Re.sub_from p repl at0 0 (c :: s) = repl ++ Re.sub_from p repl false n s.
Proof. intros H. simpl. by rewrite H. Qed.

Lemma sub1_variant ws :
  Forall (λ c, Py.isspace c = true) ws →
  Re.sub "```\s*<end_code>" fence (Py.lit "x" ++ Py.nl ++ fence ++ ws ++ end_code)
  = Py.lit "x" ++ Py.nl ++ fence.
Proof.
  intros Hws. unfold Re.sub.
  replace (Re.compile "```\s*<end_code>") with
    (Some ([Re.One (Re.Ch 96); Re.One (Re.Ch 96); Re.One (Re.Ch 96); Re.Star Re.Space]
           ++ map (λ c, Re.One (Re.Ch c)) end_code)) by (vm_compute; reflexivity).
  change (Py.lit "x" ++ Py.nl ++ fence ++ ws ++ end_code)
    with (120 :: 10 :: 96 :: 96 :: 96 :: ws ++ end_code).
  rewrite sub_from_miss by reflexivity.
  rewrite sub_from_miss by reflexivity.
  rewrite (sub_from_hit _ _ _ _ _ (12 + length ws)).
  - rewrite sub_from_skip by (simpl; rewrite length_app; simpl; lia).
    rewrite drop_ge by (simpl; rewrite length_app; simpl; lia).
    reflexivity.
  - change (Re.match_at
              (Re.Star Re.Space :: map (λ c, Re.One (Re.Ch c)) end_code)
              false false 3 (ws ++ end_code) = Some (S (12 + length ws))).
    apply match_at_spaces; [done|reflexivity|reflexivity].
Qed.

Lemma clean_variant ws :
  Forall (λ c, Py.isspace c = true) ws →
  ∀ mo, Py.strip mo = Py.lit "x" ++ Py.nl ++ fence ++ ws ++ end_code →
  clean_model_output mo = Py.lit "x" ++ Py.nl ++ fence.
Proof.
  intros Hws mo Hmo. unfold clean_model_output. cbv zeta.
  rewrite Hmo. change (Py.lit "```") with fence. rewrite sub1_variant by done.
  vm_compute. reflexivity.
Qed.

(** ** The extractor as a function of the step *)

Lemma refs_app ms1 : ∀ k ms2,
  refs k (ms1 ++ ms2) = refs k ms1 ++ refs (k + length ms1) ms2.
Proof.
  induction ms1 as [|m ms1 IH]; intros k ms2; simpl.
  - by rewrite Nat.add_0_r.
  - rewrite IH. do 3 f_equal. lia.
Qed.

Lemma seen_refs ms : ∀ k, map seen (refs k ms) = ms.
Proof. induction ms as [|m ms IH]; intros k; simpl; [done|by rewrite IH]. Qed.

Lemma length_refs ms : ∀ k, length (refs k ms) = length ms.
Proof. induction ms as [|m ms IH]; intros k; simpl; [done|by rewrite IH]. Qed.

Lemma refs_range ms : ∀ k,
  Forall (λ y, (k ≤ ref y < k + length ms)%nat) (refs k ms).
Proof.
  induction ms as [|m ms IH]; intros k; simpl; constructor.
  - simpl. lia.
  - eapply Forall_impl; [apply IH|]. simpl. intros y ?. lia.
Qed.

Lemma push_extend w m : push w m = extend w [m].
Proof. reflexivity. Qed.

Lemma extend_nil w : extend w [] = w.
Proof. destruct w. unfold extend. simpl. by rewrite !app_nil_r. Qed.

Lemma extend_extend w ms1 ms2 : extend (extend w ms1) ms2 = extend w (ms1 ++ ms2).
Proof.
  unfold extend. simpl. rewrite refs_app, length_app, !app_assoc. reflexivity.
Qed.

Lemma after_header_extend a w : after_header a w = extend w (header_messages a).
Proof.
  unfold after_header, header_messages.
  destruct (model_output a); by rewrite ?push_extend, ?extend_extend.
Qed.

Lemma after_children_extend a n w :
  after_children a n w = extend w (children_messages a n).
Proof.
  unfold after_children, children_messages.
  destruct (observations a) as [| |obs]; [| |destruct (Py.nonempty (Py.strip obs))];
    destruct (error a);
    by rewrite ?push_extend, ?extend_extend, ?extend_nil.
Qed.

Lemma footer_extend a w : footer a w = (extend w (footer_messages a), footer_outcome a).
Proof.
  unfold footer, footer_messages, footer_outcome.
  destruct (step_footnote_of _ _);
    by rewrite ?push_extend, ?extend_extend, ?extend_nil.
Qed.

Lemma mark_done_extend r w ms :
  (r < length (heap w))%nat →
  extend (mark_done r w) ms =
    {| heap := alter (with_metadata "status" (Py.lit "done")) r (heap w ++ ms);
       yielded := yielded w ++ refs (length (heap w)) ms;
       mutations := mutations w
                    ++ [{| target := r; field_key := "status";
                           field_value := Py.lit "done";
                           yields_before := length (yielded w) |}] |}.
Proof.
  intros Hr. unfold extend, mark_done. simpl.
  rewrite length_alter. f_equal. by rewrite alter_app_l.
Qed.

(** The extractor, as a function from the step to what is yielded, the
    outcome and the store. *)
Lemma pull_world a w :
  pull_messages_from_step (IsActionStep a) w =
    ({| heap := step_heap a (heap w);
        yielded := yielded w ++ refs (length (heap w)) (step_messages a);
        mutations := mutations w
                     ++ step_mutations a (length (heap w)) (length (yielded w)) |},
     step_outcome a).
Proof.
  rewrite pull_action. cbv zeta. rewrite after_header_extend.
  unfold step_heap, step_messages, step_outcome, step_mutations.
  destruct (tool_calls a) as [| |[|c cs]].
  - fold (standalone_messages a).
    replace (match error a with
             | Has e => push (extend w (header_messages a))
                          (assistant (Text (py_str e)) {[ "title" := title_error ]})
             | _ => extend w (header_messages a)
             end) with (extend (extend w (header_messages a)) (standalone_messages a))
      by (unfold standalone_messages; destruct (error a); by rewrite ?extend_nil).
    rewrite footer_extend, !extend_extend. unfold extend. by rewrite app_nil_r.
  - replace (match error a with
             | Has e => push (extend w (header_messages a))
                          (assistant (Text (py_str e)) {[ "title" := title_error ]})
             | _ => extend w (header_messages a)
             end) with (extend (extend w (header_messages a)) (standalone_messages a))
      by (unfold standalone_messages; destruct (error a); by rewrite ?extend_nil).
    rewrite footer_extend, !extend_extend. unfold extend. by rewrite app_nil_r.
  - unfold extend. by rewrite !app_nil_r.
  - rewrite push_extend, after_children_extend, !extend_extend, footer_extend.
    rewrite mark_done_extend
      by (unfold extend; cbn [heap]; rewrite !length_app; simpl; lia).
    unfold extend; cbn [heap yielded mutations].
    change (parent_message c (length (c :: cs))
              :: children_messages a (length (c :: cs)) ++ footer_messages a)
      with ([parent_message c (length (c :: cs))]
              ++ children_messages a (length (c :: cs)) ++ footer_messages a).
    rewrite !refs_app, !length_app, !length_refs, <- !app_assoc.
    rewrite !Nat.add_assoc. reflexivity.
Qed.

Lemma pull_run a h :
  run (pull_messages_from_step (IsActionStep a)) h =
    ({| heap := step_heap a h; yielded := refs (length h) (step_messages a);
        mutations := step_mutations a (length h) 0 |},
     step_outcome a).
Proof. unfold run. by rewrite pull_world. Qed.

Lemma Forall_refs (P : ChatMessage → Prop) ms : ∀ k,
  Forall P ms → Forall (λ y, P (seen y)) (refs k ms).
Proof.
  induction ms as [|m ms IH]; intros k Hms; simpl; [constructor|].
  inversion_clear Hms. constructor; auto.
Qed.

Lemma header_no_metadata a : Forall (λ m, metadata m = ∅) (header_messages a).
Proof. unfold header_messages. destruct (model_output a); repeat constructor. Qed.

Lemma footer_no_metadata a : Forall (λ m, metadata m = ∅) (footer_messages a).
Proof. unfold footer_messages. destruct (step_footnote_of _ _); repeat constructor. Qed.

Lemma children_linked a n :
  Forall (λ m, metadata m !! "parent_id" = Some (Py.lit "call_" ++ Py.str_of_N (N.of_nat n))
               ∧ metadata m !! "status" = Some (Py.lit "done"))
    (children_messages a n).
Proof.
  unfold children_messages.
  destruct (observations a) as [| |obs]; [| |destruct (Py.nonempty (Py.strip obs))];
    destruct (error a); repeat constructor.
Qed.

Lemma elem_of_refs m ms : ∀ k,
  m ∈ ms → ∃ y, y ∈ refs k ms ∧ seen y = m.
Proof.
  induction ms as [|m' ms IH]; intros k Hm; [by apply elem_of_nil in Hm|].
  apply elem_of_cons in Hm as [->|Hm]; simpl.
  - eexists. split; [left|done].
  - destruct (IH (S k) Hm) as (y & Hy & <-).
    exists y. split; [by right|done].
Qed.

Lemma elem_of_refs_seen y ms : ∀ k, y ∈ refs k ms → seen y ∈ ms.
Proof.
  induction ms as [|m ms IH]; intros k Hy; simpl in Hy.
  - by apply elem_of_nil in Hy.
  - apply elem_of_cons in Hy as [->|Hy]; [left|right; eauto].
Qed.

Lemma tool_step_messages a c cs :
  tool_calls a = Has (c :: cs) →
  step_messages a =
    header_messages a
    ++ parent_message c (length (c :: cs))
       :: children_messages a (length (c :: cs)) ++ footer_messages a.
Proof. intros H. unfold step_messages. by rewrite H. Qed.

Lemma thought_message a h mo :
  model_output a = Has mo →
  yielded (run (pull_messages_from_step (IsActionStep a)) h).1 !! 1%nat
  = Some {| ref := S (length h);
            seen := assistant (Text (clean_model_output mo)) ∅ |}.
Proof.
  intros Hmo. rewrite pull_run. cbn [fst yielded].
  unfold step_messages, header_messages. rewrite Hmo. reflexivity.
Qed.

Lemma title_logs_not_tool s : title_tool ++ s ≠ title_logs.
Proof. intros H. vm_compute in H. discriminate. Qed.

(** ** The claims *)

(** *** Execution logs (C1) *)

(** What the code does with the observations: the child is there exactly
    when something is left after trimming, before the prefix is removed. *)
Lemma logs_child_iff (a : ActionStep) (h : list ChatMessage)
    (c : ToolCall) (cs : list ToolCall) :
  tool_calls a = Has (c :: cs) →
  (∃ y, y ∈ yielded (run (pull_messages_from_step (IsActionStep a)) h).1
        ∧ metadata (seen y) !! "title" = Some title_logs)
  ↔ (∃ obs, observations a = Has obs ∧ Py.nonempty (Py.strip obs) = true).
Proof.
  intros Hcalls. rewrite pull_run. cbn [fst yielded].
  rewrite (tool_step_messages a c cs Hcalls). split.
  - intros (y & Hy & Htitle). apply elem_of_refs_seen in Hy.
    apply elem_of_app in Hy as [Hy|Hy].
    { pose proof (header_no_metadata a) as Hno.
      rewrite Forall_forall in Hno. by rewrite (Hno _ Hy) in Htitle. }
    apply elem_of_cons in Hy as [Hy|Hy].
    { assert (Ht : Some (title_tool ++ name c) = Some title_logs)
        by (rewrite <- Htitle, Hy; reflexivity).
      destruct (title_logs_not_tool (name c)). congruence. }
    apply elem_of_app in Hy as [Hy|Hy].
    + unfold children_messages in Hy.
      destruct (observations a) as [| |obs];
        [| |destruct (Py.nonempty (Py.strip obs)) eqn:Hne; [by eauto|]];
        destruct (error a); simpl in Hy;
        repeat (apply elem_of_cons in Hy as [Hy|Hy];
                [rewrite Hy in Htitle; vm_compute in Htitle; discriminate|]);
        by apply elem_of_nil in Hy.
    + pose proof (footer_no_metadata a) as Hno.
      rewrite Forall_forall in Hno. by rewrite (Hno _ Hy) in Htitle.
  - intros (obs & Hobs & Hne).
    destruct (elem_of_refs
                (child_message title_logs
                   (Re.sub "^Execution logs:\s*" [] (Py.strip obs)) (length (c :: cs)))
                (header_messages a
                 ++ parent_message c (length (c :: cs))
                    :: children_messages a (length (c :: cs)) ++ footer_messages a)
                (length h)) as (y & Hy & Hseen).
    + unfold children_messages. rewrite Hobs, Hne. set_solver.
    + exists y. split; [done|]. by rewrite Hseen.
Qed.

(** The first example of the spec: the content is what follows the prefix. *)
Lemma logs_child_done :
  Re.sub "^Execution logs:\s*" []
    (Py.strip (Py.lit "Execution logs:   " ++ Py.nl ++ Py.lit "  done" ++ Py.nl))
  = Py.lit "done".
Proof. vm_compute. reflexivity. Qed.

(** C1: the claim says that for observations "Execution logs:\n" no child
    message is emitted, nothing being left after the prefix. The code tests
    the trimmed observations before it removes the prefix, so for every step
    with a tool call and these observations it yields an
    "Execution Logs" child whose content is the empty string. *)
Theorem empty_logs_child_emitted (a : ActionStep) (h : list ChatMessage)
    (c : ToolCall) (cs : list ToolCall) :
  tool_calls a = Has (c :: cs) →
  observations a = Has (Py.lit "Execution logs:" ++ Py.nl) →
  ∃ y, y ∈ yielded (run (pull_messages_from_step (IsActionStep a)) h).1
       ∧ metadata (seen y) !! "title" = Some title_logs
       ∧ content (seen y) = Text [].
Proof.
  intros Hcalls Hobs. rewrite pull_run. cbn [fst yielded].
  rewrite (tool_step_messages a c cs Hcalls).
  destruct (elem_of_refs (child_message title_logs [] (length (c :: cs)))
              (header_messages a
               ++ parent_message c (length (c :: cs))
                  :: children_messages a (length (c :: cs)) ++ footer_messages a)
              (length h)) as (y & Hy & Hseen).
  - unfold children_messages. rewrite Hobs.
    change (Py.nonempty (Py.strip (Py.lit "Execution logs:" ++ Py.nl))) with true.
    cbv iota.
    replace (Re.sub "^Execution logs:\s*" [] (Py.strip (Py.lit "Execution logs:" ++ Py.nl)))
      with (@nil N) by (vm_compute; reflexivity).
    set_solver.
  - exists y. rewrite Hseen. done.
Qed.

Lemma empty_logs_child_emitted_witness :
  ∃ y, y ∈ yielded (run (pull_messages_from_step
                           (IsActionStep
                              (Samples.with_calls [Samples.print_call]
                                 (Has (Py.lit "Execution logs:" ++ Py.nl)) Missing))) []).1
       ∧ metadata (seen y) !! "title" = Some title_logs
       ∧ content (seen y) = Text [].
Proof.
  apply (empty_logs_child_emitted _ [] Samples.print_call []); reflexivity.
Defined.

(** *** Errors without tool calls (C2) *)

(** With [tool_calls] missing or [None] and an error, the error is yielded
    once, with a title and nothing else in its metadata, right after the
    header messages. *)
Lemma standalone_error (a : ActionStep) (h : list ChatMessage) (e : PyObject) :
  tool_calls a = Missing ∨ tool_calls a = IsNone →
  error a = Has e →
  map seen (yielded (run (pull_messages_from_step (IsActionStep a)) h).1)
  = header_messages a
    ++ assistant (Text (py_str e)) {[ "title" := title_error ]}
    :: footer_messages a.
Proof.
  intros Hcalls Herr. rewrite pull_run. cbn [fst yielded]. rewrite seen_refs.
  unfold step_messages, standalone_messages. rewrite Herr.
  by destruct Hcalls as [-> | ->].
Qed.

(** C2: the claim covers an empty [tool_calls] sequence. The code only
    tests [tool_calls] against [None], so on an empty list it takes the
    tool-call branch and indexing the first call raises IndexError: only the
    header messages are out, none of them an error message. *)
Theorem empty_tool_calls_raise (a : ActionStep) (h : list ChatMessage) :
  tool_calls a = Has [] →
  let r := run (pull_messages_from_step (IsActionStep a)) h in
  r.2 = Raise IndexError
  ∧ Forall (λ y, metadata (seen y) !! "title" = None) (yielded r.1).
Proof.
  intros Hcalls. rewrite pull_run. cbn [fst snd yielded].
  unfold step_outcome, step_messages. rewrite Hcalls, app_nil_r.
  split; [done|].
  apply (Forall_refs (λ m, metadata m !! "title" = None)).
  eapply Forall_impl; [apply header_no_metadata|].
  by intros m ->.
Qed.

Lemma empty_tool_calls_raise_witness :
  let r := run (pull_messages_from_step
                  (IsActionStep
                     (Samples.with_calls [] Missing (Has (PyOther (Py.lit "boom")))))) [] in
  r.2 = Raise IndexError
  ∧ Forall (λ y, metadata (seen y) !! "title" = None) (yielded r.1).
Proof. apply empty_tool_calls_raise. reflexivity. Defined.

(** *** Duration (C3) *)

Lemma falsy_duration_footnote (a : ActionStep) (l : str) :
  duration a = IsNone
  ∨ (∃ d, duration a = Has d ∧ Float.truthy d = false) →
  step_footnote_of l a = Raise TypeError.
Proof.
  intros Hd. unfold step_footnote_of. cbv zeta.
  destruct Hd as [Hd | (d & Hd & Ht)]; rewrite Hd, ?Ht;
    destruct (input_token_count a) as [| |i], (output_token_count a) as [| |o];
    reflexivity.
Qed.

(** C3: the claim says that with a duration that is present but falsy the
    footnote is emitted without the duration segment. The code then adds
    [None] to the footnote, which raises TypeError: extraction stops after
    the messages of the tool call or the error, and no footnote is yielded. *)
Theorem falsy_duration_raises (a : ActionStep) (h : list ChatMessage) :
  duration a = IsNone
  ∨ (∃ d, duration a = Has d ∧ Float.truthy d = false) →
  tool_calls a ≠ Has [] →
  let r := run (pull_messages_from_step (IsActionStep a)) h in
  r.2 = Raise TypeError
  ∧ map seen (yielded r.1)
    = header_messages a
      ++ match tool_calls a with
         | Has (c :: cs) =>
             parent_message c (length (c :: cs))
               :: children_messages a (length (c :: cs))
         | _ => standalone_messages a
         end.
Proof.
  intros Hd Hcalls. rewrite pull_run. cbn [fst snd yielded]. rewrite seen_refs.
  unfold step_outcome, step_messages, footer_outcome, footer_messages.
  rewrite (falsy_duration_footnote a (label a) Hd).
  destruct (tool_calls a) as [| |[|c cs]]; rewrite ?app_nil_r; done.
Qed.

Lemma falsy_duration_raises_witness :
  let r := run (pull_messages_from_step (IsActionStep Samples.zero_duration)) [] in
  r.2 = Raise TypeError
  ∧ map seen (yielded r.1)
    = [assistant (Text (Py.lit "**Step 1**")) ∅].
Proof.
  apply (falsy_duration_raises Samples.zero_duration []).
  - right. exists Samples.zero. split; reflexivity.
  - discriminate.
Defined.

(** *** Model output (C4) *)

(** C4: when the trimmed model output is "x\n```\n<end_code>",
    "x\n<end_code>```", or "x\n```" and "<end_code>" with any whitespace
    in between, the message of the model output, second of the step, has the
    content "x\n```". *)
Theorem end_code_variants_normalised (a : ActionStep) (h : list ChatMessage)
    (mo : str) :
  model_output a = Has mo →
  Py.strip mo = Py.lit "x" ++ Py.nl ++ Py.lit "```" ++ Py.nl ++ Py.lit "<end_code>"
  ∨ Py.strip mo = Py.lit "x" ++ Py.nl ++ Py.lit "<end_code>```"
  ∨ (∃ ws, Forall (λ c, Py.isspace c = true) ws
           ∧ Py.strip mo = Py.lit "x" ++ Py.nl ++ Py.lit "```" ++ ws ++ Py.lit "<end_code>") →
  ∃ y, yielded (run (pull_messages_from_step (IsActionStep a)) h).1 !! 1%nat = Some y
       ∧ content (seen y) = Text (Py.lit "x" ++ Py.nl ++ Py.lit "```")
       ∧ metadata (seen y) = ∅.
Proof.
  intros Hmo Hv. rewrite (thought_message a h mo Hmo).
  eexists. split; [reflexivity|]. split; [|reflexivity].
  cbn [seen content assistant]. f_equal.
  destruct Hv as [Hv | [Hv | (ws & Hws & Hv)]].
  - apply (clean_variant Py.nl); [by repeat constructor|done].
  - unfold clean_model_output. rewrite Hv. vm_compute. reflexivity.
  - by apply (clean_variant ws).
Qed.

Lemma end_code_variants_normalised_witness :
  ∃ y, yielded (run (pull_messages_from_step
                       (IsActionStep
                          (Samples.thinking (Py.lit "  x" ++ Py.nl ++ Py.lit "```  " ++ Py.nl
                                     ++ Py.lit " <end_code> " ++ Py.nl)))) []).1 !! 1%nat
       = Some y
       ∧ content (seen y) = Text (Py.lit "x" ++ Py.nl ++ Py.lit "```")
       ∧ metadata (seen y) = ∅.
Proof.
  eapply end_code_variants_normalised; [reflexivity|].
  right; right. exists (Py.lit "  " ++ Py.nl ++ Py.lit " ").
  split; [by repeat constructor|reflexivity].
Defined.

(** *** Code calls (C5) *)

(** C5: for a step whose only tool call is named "python_interpreter" with
    the arguments [{"answer": "print(1)"}], the parent message, the first
    one with metadata, has the content "```python\nprint(1)\n```". *)
Theorem python_call_rendered (a : ActionStep) (h : list ChatMessage)
    (c : ToolCall) (shown : str) :
  tool_calls a = Has [c] →
  name c = Py.lit "python_interpreter" →
  arguments c = ArgsDict {[ Py.lit "answer" := PyStr (Py.lit "print(1)") ]} shown →
  ∃ before y after,
    yielded (run (pull_messages_from_step (IsActionStep a)) h).1
    = before ++ y :: after
    ∧ Forall (λ y', metadata (seen y') = ∅) before
    ∧ metadata (seen y) !! "title" = Some (title_tool ++ Py.lit "python_interpreter")
    ∧ metadata (seen y) !! "status" = Some (Py.lit "pending")
    ∧ content (seen y)
      = Text (Py.lit "```python" ++ Py.nl ++ Py.lit "print(1)" ++ Py.nl ++ Py.lit "```").
Proof.
  intros Hcalls Hname Hargs. rewrite pull_run. cbn [fst yielded].
  rewrite (tool_step_messages a c [] Hcalls), refs_app. cbn [refs].
  eexists _, _, _. split; [reflexivity|].
  split; [apply (Forall_refs (λ m, metadata m = ∅)), header_no_metadata|].
  cbn [seen]. unfold parent_message. rewrite Hname, Hargs.
  split; [reflexivity|]. split; [reflexivity|].
  cbn [content assistant]. rewrite bool_decide_eq_true_2 by done.
  unfold args_content. rewrite lookup_singleton_eq. cbn [default py_str].
  vm_compute. reflexivity.
Qed.

Lemma python_call_rendered_witness :
  ∃ before y after,
    yielded (run (pull_messages_from_step
                    (IsActionStep (Samples.with_calls [Samples.print_call] Missing Missing)))
               []).1
    = before ++ y :: after
    ∧ Forall (λ y', metadata (seen y') = ∅) before
    ∧ metadata (seen y) !! "title" = Some (title_tool ++ Py.lit "python_interpreter")
    ∧ metadata (seen y) !! "status" = Some (Py.lit "pending")
    ∧ content (seen y)
      = Text (Py.lit "```python" ++ Py.nl ++ Py.lit "print(1)" ++ Py.nl ++ Py.lit "```").
Proof.
  apply (python_call_rendered _ [] Samples.print_call (Py.lit "{'answer': 'print(1)'}"));
    reflexivity.
Defined.

(** *** Parent and children (C6) *)

(** C6: for a step with a non-empty [tool_calls], the parent message is
    yielded with status pending; the execution-log and error messages that
    follow it carry the parent's id as [parent_id] and status done; and once
    they are out, and not before, the status of the parent object is set to
    done, in place: it is the one assignment of the run, made when the
    children have been yielded and before what follows them, and the
    object in the store is then the parent as it was yielded but for its
    status, which is done. Nothing else was yielded for it: no other yield
    refers to the parent, and the messages around carry no metadata at
    all. *)
Theorem parent_pending_then_done (a : ActionStep) (h : list ChatMessage)
    (c : ToolCall) (cs : list ToolCall) :
  tool_calls a = Has (c :: cs) →
  let w := (run (pull_messages_from_step (IsActionStep a)) h).1 in
  ∃ (before : list Yielded) (parent : Yielded) (children after : list Yielded)
    (stored : ChatMessage),
    yielded w = before ++ parent :: children ++ after
    ∧ metadata (seen parent) !! "title" = Some (title_tool ++ name c)
    ∧ metadata (seen parent) !! "id"
        = Some (Py.lit "call_" ++ Py.str_of_N (N.of_nat (length (c :: cs))))
    ∧ metadata (seen parent) !! "status" = Some (Py.lit "pending")
    ∧ map seen children = children_messages a (length (c :: cs))
    ∧ Forall (λ y, metadata (seen y) !! "parent_id" = metadata (seen parent) !! "id"
                   ∧ metadata (seen y) !! "status" = Some (Py.lit "done")) children
    ∧ Forall (λ y, metadata (seen y) = ∅) (before ++ after)
    ∧ Forall (λ y, ref y ≠ ref parent) (before ++ children ++ after)
    ∧ mutations w
        = [{| target := ref parent;
              field_key := "status";
              field_value := Py.lit "done";
              yields_before := length (before ++ parent :: children) |}]
    ∧ heap w !! ref parent = Some stored
    ∧ stored = with_metadata "status" (Py.lit "done") (seen parent)
    ∧ metadata stored !! "status" = Some (Py.lit "done")
    ∧ metadata stored = <["status" := Py.lit "done"]> (metadata (seen parent))
    ∧ role stored = role (seen parent)
    ∧ content stored = content (seen parent)
    ∧ h !! ref parent = None.
Proof.
  intros Hcalls. rewrite pull_run. cbn [fst heap yielded mutations].
  unfold step_heap, step_messages, step_mutations. rewrite Hcalls.
  set (n := length (c :: cs)). set (hdr := header_messages a).
  exists (refs (length h) hdr),
         {| ref := length h + length hdr; seen := parent_message c n |},
         (refs (S (length h + length hdr)) (children_messages a n)),
         (refs (S (length h + length hdr) + length (children_messages a n))
               (footer_messages a)),
         (with_metadata "status" (Py.lit "done") (parent_message c n)).
  cbn [ref seen].
  repeat match goal with |- _ ∧ _ => split end.
  - rewrite refs_app. simpl. rewrite refs_app. do 3 f_equal.
  - reflexivity.
  - reflexivity.
  - reflexivity.
  - apply seen_refs.
  - apply (Forall_refs _ _ _ (children_linked a n)).
  - apply Forall_app; split; apply (Forall_refs (λ m, metadata m = ∅));
      [apply header_no_metadata|apply footer_no_metadata].
  - rewrite !Forall_app. repeat split.
    + eapply Forall_impl; [apply refs_range|]. simpl; intros; lia.
    + eapply Forall_impl; [apply refs_range|]. simpl; intros; lia.
    + eapply Forall_impl; [apply refs_range|]. simpl; intros; lia.
  - rewrite length_app. cbn [length]. rewrite !length_refs.
    do 2 f_equal. lia.
  - rewrite list_lookup_alter, app_assoc.
    rewrite list_lookup_middle by (by rewrite length_app).
    by rewrite decide_True.
  - reflexivity.
  - reflexivity.
  - reflexivity.
  - reflexivity.
  - reflexivity.
  - apply lookup_ge_None. lia.
Qed.

Lemma parent_pending_then_done_witness :
  let w := (run (pull_messages_from_step (IsActionStep Samples.logged_and_failed)) []).1 in
  ∃ (before : list Yielded) (parent : Yielded) (children after : list Yielded)
    (stored : ChatMessage),
    yielded w = before ++ parent :: children ++ after
    ∧ metadata (seen parent) !! "title" = Some (title_tool ++ Py.lit "python_interpreter")
    ∧ metadata (seen parent) !! "id" = Some (Py.lit "call_1")
    ∧ metadata (seen parent) !! "status" = Some (Py.lit "pending")
    ∧ map seen children
      = [child_message title_logs (Py.lit "1") 1;
         child_message title_error (Py.lit "boom") 1]
    ∧ Forall (λ y, metadata (seen y) !! "parent_id" = metadata (seen parent) !! "id"
                   ∧ metadata (seen y) !! "status" = Some (Py.lit "done")) children
    ∧ Forall (λ y, metadata (seen y) = ∅) (before ++ after)
    ∧ Forall (λ y, ref y ≠ ref parent) (before ++ children ++ after)
    ∧ mutations w
        = [{| target := ref parent;
              field_key := "status";
              field_value := Py.lit "done";
              yields_before := length (before ++ parent :: children) |}]
    ∧ heap w !! ref parent = Some stored
    ∧ stored = with_metadata "status" (Py.lit "done") (seen parent)
    ∧ metadata stored !! "status" = Some (Py.lit "done")
    ∧ metadata stored = <["status" := Py.lit "done"]> (metadata (seen parent))
    ∧ role stored = role (seen parent)
    ∧ content stored = content (seen parent)
    ∧ [] !! ref parent = (None : option ChatMessage).
Proof.
  apply (parent_pending_then_done Samples.logged_and_failed [] Samples.print_call []).
  reflexivity.
Defined.

(** On the sample step the parent is the second message and its status is
    set when four messages are out: the header, the parent and the two
    children. *)
Lemma parent_done_after_children :
  let w := (run (pull_messages_from_step (IsActionStep Samples.logged_and_failed)) []).1 in
  mutations w
  = [{| target := 1; field_key := "status"; field_value := Py.lit "done";
        yields_before := 4 |}]
  ∧ length (yielded w) = 6%nat
  ∧ (metadata <$> heap w !! 1%nat) ≫= (.!! "status") = Some (Py.lit "done").
Proof. vm_compute. repeat split; reflexivity. Qed.

(** *** Token counts (C7) *)

(** C7: when the model exposes both counts, one turn of the loop adds them
    to the running totals and hands the extractor the step stamped with the
    counts of this call, when it is an action step, and the step as it is
    otherwise. *)
Theorem tokens_tracked_per_call (l : Locals) (step_log : StepLog) (model : Model)
    (i o : Z) (w : World) :
  last_input_token_count model = Has i →
  last_output_token_count model = Has o →
  loop_body l (step_log, model) w =
    match pull_messages_from_step (stamped step_log i o) w with
    | (w', Ok _) =>
        (w', Ok {| total_input_tokens := (total_input_tokens l + i)%Z;
                   total_output_tokens := (total_output_tokens l + o)%Z;
                   step_log := Some (stamped step_log i o) |})
    | (w', Raise e) => (w', Raise e)
    end.
Proof.
  intros Hi Ho. unfold loop_body, track_tokens. rewrite Hi, Ho.
  cbn [add_count mbind result_bind].
  unfold stamped.
  destruct step_log as [a|v]; rewrite lift_bind; cbv beta iota;
    unfold mbind, gen_bind, mret, gen_ret;
    match goal with |- context [pull_messages_from_step ?s w] =>
      destruct (pull_messages_from_step s w) as [w' [[]|e]] end;
    reflexivity.
Qed.

Lemma tokens_tracked_per_call_witness :
  loop_body Samples.so_far (IsActionStep Samples.bare, Samples.counting)
    {| heap := []; yielded := []; mutations := [] |} =
    match pull_messages_from_step (stamped (IsActionStep Samples.bare) 10 1)
            {| heap := []; yielded := []; mutations := [] |} with
    | (w', Ok _) =>
        (w', Ok {| total_input_tokens := 110; total_output_tokens := 8;
                   step_log := Some (stamped (IsActionStep Samples.bare) 10 1) |})
    | (w', Raise e) => (w', Raise e)
    end.
Proof.
  apply (tokens_tracked_per_call Samples.so_far (IsActionStep Samples.bare) Samples.counting 10 1);
    reflexivity.
Defined.

(** *** Footnote (C8) *)

(** The literal 1.236 denotes [Samples.d1236]: a 53-bit mantissa, within
    half a unit in the last place of 1236/1000. *)
Lemma d1236_nearest :
  (2 ^ 52 <= 5566449139429933 < 2 ^ 53)%Z
  ∧ (Z.abs (1000 * 5566449139429933 - 1236 * 2 ^ 52) <= 500)%Z.
Proof. vm_compute. repeat split; discriminate. Qed.

(** C8: with 1200 input tokens, 5 output tokens and a duration of 1.236, the
    footnote, last but one message of the step, reads
    "Input-tokens:1,200 | Output-tokens:5 | Duration: 1.24" after the step
    label, provided extraction gets there, that is, [tool_calls] is not an
    empty list. *)
Theorem footnote_tokens_and_duration (a : ActionStep) (h : list ChatMessage) :
  input_token_count a = Has 1200%Z →
  output_token_count a = Has 5%Z →
  duration a = Has Samples.d1236 →
  tool_calls a ≠ Has [] →
  let r := run (pull_messages_from_step (IsActionStep a)) h in
  r.2 = Ok tt
  ∧ ∃ before footnote separator,
      yielded r.1 = before ++ [footnote; separator]
      ∧ content (seen footnote)
        = Text (span_open ++ label a ++ Py.lit " | "
                ++ Py.lit "Input-tokens:1,200 | Output-tokens:5 | Duration: 1.24"
                ++ span_close)
      ∧ content (seen separator) = Text (Py.lit "-----").
Proof.
  intros Hin Hout Hdur Hcalls.
  assert (Hfoot : step_footnote_of (label a) a
                  = Ok (span_open ++ label a ++ Py.lit " | "
                        ++ Py.lit "Input-tokens:1,200 | Output-tokens:5 | Duration: 1.24"
                        ++ span_close)).
  { unfold step_footnote_of. rewrite Hin, Hout, Hdur.
    cbn [format_field mbind result_bind iadd].
    change (Float.truthy Samples.d1236) with true. cbv iota zeta. cbn [iadd].
    replace (Py.format_commas 1200) with (Py.lit "1,200") by (vm_compute; reflexivity).
    replace (Py.format_commas 5) with (Py.lit "5") by (vm_compute; reflexivity).
    replace (Float.round2_str Samples.d1236) with (Py.lit "1.24")
      by (vm_compute; reflexivity).
    cbn [mbind result_bind]. rewrite <- !app_assoc. do 3 f_equal. }
  rewrite pull_run. cbn [fst snd yielded].
  unfold step_outcome, step_messages, footer_outcome, footer_messages.
  rewrite Hfoot. split.
  - by destruct (tool_calls a) as [| |[|c cs]].
  - destruct (tool_calls a) as [| |[|c cs]]; [| |done|].
    + rewrite app_assoc, refs_app. cbn [refs]. eexists _, _, _. split; [reflexivity|split; reflexivity].
    + rewrite app_assoc, refs_app. cbn [refs]. eexists _, _, _. split; [reflexivity|split; reflexivity].
    + change (parent_message c (length (c :: cs))
                :: children_messages a (length (c :: cs)) ++ ?x)
        with ([parent_message c (length (c :: cs))]
                ++ children_messages a (length (c :: cs)) ++ x).
      rewrite !app_assoc, refs_app. cbn [refs].
      eexists _, _, _. split; [reflexivity|split; reflexivity].
Qed.

Lemma footnote_tokens_and_duration_witness :
  let r := run (pull_messages_from_step (IsActionStep Samples.measured)) [] in
  r.2 = Ok tt
  ∧ ∃ before footnote separator,
      yielded r.1 = before ++ [footnote; separator]
      ∧ content (seen footnote)
        = Text (span_open ++ Py.lit "Step 1" ++ Py.lit " | "
                ++ Py.lit "Input-tokens:1,200 | Output-tokens:5 | Duration: 1.24"
                ++ span_close)
      ∧ content (seen separator) = Text (Py.lit "-----").
Proof.
  apply (footnote_tokens_and_duration Samples.measured []); try reflexivity. discriminate.
Defined.

(** *** Final answer (C9, C10) *)

(** C9: rendering the final answer never raises and yields one new message,
    whose content follows the variant. *)
Theorem final_answer_rendered (final_answer : FinalAnswer) (h : list ChatMessage) :
  ∃ m,
    run (yield_final_answer final_answer) h
    = ({| heap := h ++ [m]; yielded := [{| ref := length h; seen := m |}];
          mutations := [] |}, Ok tt)
    ∧ role m = Py.lit "assistant"
    ∧ metadata m = ∅
    ∧ content m =
        match final_answer with
        | AgentText text =>
            Text (Py.lit "**Final answer:**" ++ Py.nl ++ text ++ Py.nl)
        | AgentImage path =>
            FileDict {[ "path" := path; "mime_type" := Py.lit "image/png" ]}
        | AgentAudio path =>
            FileDict {[ "path" := path; "mime_type" := Py.lit "audio/wav" ]}
        | Unwrapped value =>
            Text (Py.lit "**Final answer:** " ++ py_str value)
        end.
Proof.
  unfold run, yield_final_answer.
  destruct final_answer; rewrite new_yield; eexists; (split; [reflexivity|]); done.
Qed.

(** C10: on an empty run the streamer yields nothing and raises
    UnboundLocalError where it reads [step_log]. *)
Theorem empty_run_unbound (handle_agent_output_types : StepLog → FinalAnswer)
    (h : list ChatMessage) :
  run (stream_to_gradio handle_agent_output_types true []) h
  = ({| heap := h; yielded := []; mutations := [] |}, Raise UnboundLocalError).
Proof. reflexivity. Qed.

(** With at least one item, the loop leaves [step_log] bound. *)
Lemma for_loop_binds items : ∀ l w w' l',
  for_loop items l w = (w', Ok l') →
  items ≠ [] ∨ is_Some (step_log l) →
  is_Some (step_log l').
Proof.
  induction items as [|[s m] items IH]; intros l w w' l' Hrun Hbound.
  - injection Hrun as _ <-. by destruct Hbound.
  - cbn [for_loop] in Hrun. unfold mbind, gen_bind in Hrun.
    destruct (loop_body l (s, m) w) as [w1 [l1|e]] eqn:Hbody; [|done].
    apply (IH _ _ _ _ Hrun). right.
    unfold loop_body in Hbody. rewrite lift_bind in Hbody.
    destruct (track_tokens l s m) as [[[ti to] s']|e]; [|done].
    unfold mbind, gen_bind, mret, gen_ret in Hbody.
    destruct (pull_messages_from_step s' w) as [w2 [[]|e]]; [|done].
    injection Hbody as _ <-. by eexists.
Qed.

(** So the final-answer phase is reached whenever a step was observed and
    the loop came to its end. *)
Lemma stream_final_answer handle items w w' l' :
  items ≠ [] →
  for_loop items
    {| total_input_tokens := 0; total_output_tokens := 0; step_log := None |} w
  = (w', Ok l') →
  ∃ last, step_log l' = Some last
    ∧ stream_to_gradio handle true items w = yield_final_answer (handle last) w'.
Proof.
  intros Hne Hloop.
  destruct (for_loop_binds _ _ _ _ _ Hloop (or_introl Hne)) as [last Hlast].
  exists last. split; [done|].
  unfold stream_to_gradio. cbn [negb]. unfold mbind at 1, gen_bind at 1.
  rewrite Hloop, Hlast. reflexivity.
Qed.

(** ** Beyond the claims *)

(** *** The extractor *)

Lemma footnote_outcome (a : ActionStep) (l : str) :
  match step_footnote_of l a with
  | Ok f => tokens_format a && duration_adds a = true
            ∧ ∃ middle, f = span_open ++ l ++ middle ++ span_close
  | Raise e => tokens_format a && duration_adds a = false ∧ e = TypeError
  end.
Proof.
  unfold step_footnote_of, tokens_format, duration_adds. cbv zeta.
  destruct (input_token_count a) as [| |i], (output_token_count a) as [| |o],
    (duration a) as [| |d]; try destruct (Float.truthy d);
    cbn [format_field mbind result_bind iadd andb]; try (split; reflexivity);
    (split; [reflexivity|]); rewrite <- ?app_assoc; eauto.
  all: try (exists []; reflexivity).
  all: eexists; do 2 f_equal; rewrite !app_assoc; reflexivity.
Qed.


Lemma refs_lookup ms : ∀ k i y,
  refs k ms !! i = Some y ↔ ms !! i = Some (seen y) ∧ ref y = (k + i)%nat.
Proof.
  induction ms as [|m ms IH]; intros k i y; simpl.
  - split; [done|by intros [? _]].
  - destruct i as [|i]; simpl.
    + split.
      * intros [= <-]. simpl. split; [done|lia].
      * intros [[= Hm] Hr]. destruct y as [r s]. simpl in *. f_equal. f_equal; [lia|done].
    + rewrite IH. split; intros [? ?]; split; auto; lia.
Qed.

(** X2: when the extractor ends normally, the last two messages it yielded
    are the footnote, a span that begins with the step's label, and the
    separator "-----". *)
Theorem success_ends_with_footnote (a : ActionStep) (h : list ChatMessage) :
  (run (pull_messages_from_step (IsActionStep a)) h).2 = Ok tt →
  ∃ before footnote separator middle,
    yielded (run (pull_messages_from_step (IsActionStep a)) h).1
    = before ++ [footnote; separator]
    ∧ seen footnote
      = assistant (Text (span_open ++ label a ++ middle ++ span_close)) ∅
    ∧ seen separator = assistant (Text (Py.lit "-----")) ∅.
Proof.
  rewrite pull_run. cbn [fst snd yielded].
  unfold step_outcome, step_messages, footer_outcome, footer_messages.
  pose proof (footnote_outcome a (label a)) as Hf.
  destruct (step_footnote_of (label a) a) as [f|e];
    [|by destruct (tool_calls a) as [| |[|c cs]]].
  destruct Hf as [_ [middle ->]].
  set (txt := span_open ++ label a ++ middle ++ span_close).
  destruct (tool_calls a) as [| |[|c cs]]; intros Hok; try done.
  - rewrite !app_assoc, refs_app. cbn [refs]. eexists _, _, _, middle; (split; [reflexivity|split; reflexivity]).
  - rewrite !app_assoc, refs_app. cbn [refs]. eexists _, _, _, middle; (split; [reflexivity|split; reflexivity]).
  - change (parent_message c (length (c :: cs))
              :: children_messages a (length (c :: cs)) ++ ?x)
      with ([parent_message c (length (c :: cs))]
              ++ children_messages a (length (c :: cs)) ++ x).
    rewrite !app_assoc, refs_app. cbn [refs]. eexists _, _, _, middle; (split; [reflexivity|split; reflexivity]).
Qed.

Lemma success_ends_with_footnote_witness :
  ∃ before footnote separator middle,
    yielded (run (pull_messages_from_step (IsActionStep Samples.measured)) []).1
    = before ++ [footnote; separator]
    ∧ seen footnote
      = assistant (Text (span_open ++ label Samples.measured ++ middle ++ span_close)) ∅
    ∧ seen separator = assistant (Text (Py.lit "-----")) ∅.
Proof. apply (success_ends_with_footnote Samples.measured []). reflexivity. Defined.

Lemma length_step_heap a h : length (step_heap a h) = (length h + length (step_messages a))%nat.
Proof.
  unfold step_heap.
  destruct (tool_calls a) as [| |[|c cs]]; by rewrite ?length_alter, length_app.
Qed.

Lemma take_step_heap a h : take (length h) (step_heap a h) = h.
Proof.
  unfold step_heap.
  destruct (tool_calls a) as [| |[|c cs]]; try by rewrite take_app_length.
  rewrite alter_app_r. by rewrite take_app_length.
Qed.

(** X3: the extractor leaves the messages that were there in place, creates
    one new message for each one it yields, and yields them in the order in
    which it created them. *)
Theorem store_only_grows (a : ActionStep) (h : list ChatMessage) :
  let w := (run (pull_messages_from_step (IsActionStep a)) h).1 in
  take (length h) (heap w) = h
  ∧ length (heap w) = (length h + length (yielded w))%nat
  ∧ ∀ k y, yielded w !! k = Some y → ref y = (length h + k)%nat.
Proof.
  rewrite pull_run. cbn [fst heap yielded].
  split; [apply take_step_heap|]. split.
  - by rewrite length_step_heap, length_refs.
  - intros k y Hy. by apply refs_lookup in Hy as [_ ?].
Qed.

(** X4: of the tool calls of a step only the first one and the length of
    the list are read: two steps that differ in the later calls alone give
    the same messages and end in the same way. *)
Theorem only_first_tool_call (a : ActionStep) (h : list ChatMessage)
    (c : ToolCall) (cs cs' : list ToolCall) :
  length cs = length cs' →
  run (pull_messages_from_step (IsActionStep (with_tool_calls a (Has (c :: cs))))) h
  = run (pull_messages_from_step (IsActionStep (with_tool_calls a (Has (c :: cs'))))) h.
Proof.
  intros Hlen. rewrite !pull_run.
  unfold step_heap, step_messages, step_outcome, step_mutations, footer_outcome,
    footer_messages, header_messages, children_messages, label, step_footnote_of.
  cbn [with_tool_calls tool_calls step_number model_output observations error
       input_token_count output_token_count duration length].
  by rewrite Hlen.
Qed.

Lemma only_first_tool_call_witness :
  run (pull_messages_from_step
         (IsActionStep (with_tool_calls Samples.measured
                          (Has [Samples.print_call;
                                {| name := Py.lit "web_search";
                                   arguments := ArgsOther (PyStr (Py.lit "q")) |}])))) []
  = run (pull_messages_from_step
           (IsActionStep (with_tool_calls Samples.measured
                            (Has [Samples.print_call; Samples.print_call])))) [].
Proof. apply only_first_tool_call. reflexivity. Defined.

Lemma step_messages_assistant a :
  Forall (λ m, role m = Py.lit "assistant") (step_messages a).
Proof.
  unfold step_messages, header_messages, children_messages, standalone_messages,
    footer_messages.
  destruct (model_output a), (tool_calls a) as [| |[|c cs]],
    (step_footnote_of (label a) a), (error a);
    try (destruct (observations a) as [| |obs];
         [| |destruct (Py.nonempty (Py.strip obs))]);
    simpl; repeat constructor.
Qed.

Lemma title_error_not_tool s : title_tool ++ s ≠ title_error.
Proof. intros H. vm_compute in H. discriminate. Qed.

Lemma settled_no_metadata m : metadata m = ∅ → settled m.
Proof.
  intros H. unfold settled. rewrite H. split; [done|]. intros n.
  by rewrite lookup_empty.
Qed.

Lemma settled_child title body n :
  (∀ s, title_tool ++ s ≠ title) → settled (child_message title body n).
Proof.
  intros Ht. split; [done|]. intros s Hs.
  assert (Some title = Some (title_tool ++ s)) as H by exact Hs.
  destruct (Ht s). congruence.
Qed.

Lemma header_settled a : Forall settled (header_messages a).
Proof.
  eapply Forall_impl; [apply header_no_metadata|]. apply settled_no_metadata.
Qed.

Lemma footer_settled a : Forall settled (footer_messages a).
Proof.
  eapply Forall_impl; [apply footer_no_metadata|]. apply settled_no_metadata.
Qed.

Lemma children_settled a n : Forall settled (children_messages a n).
Proof.
  unfold children_messages. apply Forall_app. split.
  - destruct (observations a) as [| |obs]; [constructor|constructor|].
    destruct (Py.nonempty (Py.strip obs)); repeat constructor;
      apply settled_child, title_logs_not_tool.
  - destruct (error a); repeat constructor;
      apply settled_child, title_error_not_tool.
Qed.

Lemma standalone_settled a : Forall settled (standalone_messages a).
Proof.
  unfold standalone_messages. destruct (error a) as [| |e]; [constructor..|].
  constructor; [|constructor]. split; [done|]. intros s Hs.
  assert (Some title_error = Some (title_tool ++ s)) as H by exact Hs.
  destruct (title_error_not_tool s). congruence.
Qed.

(** X5: a message is in the end what it was when it was yielded, except
    for the parent of a tool call: the message yielded as pending, which is
    the one with the title of the first tool call, has status done in the
    store and is otherwise as it was yielded. *)
Theorem only_parent_changes (a : ActionStep) (h : list ChatMessage) (y : Yielded) :
  let w := (run (pull_messages_from_step (IsActionStep a)) h).1 in
  y ∈ yielded w →
  ∃ stored,
    heap w !! ref y = Some stored
    ∧ role stored = role (seen y)
    ∧ content stored = content (seen y)
    ∧ metadata stored
      = (if bool_decide (metadata (seen y) !! "status" = Some (Py.lit "pending"))
         then <["status" := Py.lit "done"]> (metadata (seen y))
         else metadata (seen y))
    ∧ (metadata (seen y) !! "status" = Some (Py.lit "pending")
       ↔ ∃ c cs, tool_calls a = Has (c :: cs)
                 ∧ metadata (seen y) !! "title" = Some (title_tool ++ name c)).
Proof.
  rewrite pull_run. cbn [fst heap yielded]. intros Hy.
  apply list_elem_of_lookup in Hy as [i Hy].
  apply refs_lookup in Hy as [Hm ->].
  assert (Hplain : (h ++ step_messages a) !! (length h + i)%nat = Some (seen y)).
  { by rewrite lookup_app_r, Nat.add_sub' by lia. }
  assert (Hsettled : settled (seen y) →
            ∃ stored, Some (seen y) = Some stored
              ∧ role stored = role (seen y)
              ∧ content stored = content (seen y)
              ∧ metadata stored
                = (if bool_decide (metadata (seen y) !! "status" = Some (Py.lit "pending"))
                   then <["status" := Py.lit "done"]> (metadata (seen y))
                   else metadata (seen y))
              ∧ (metadata (seen y) !! "status" = Some (Py.lit "pending")
                 ↔ ∃ c cs, tool_calls a = Has (c :: cs)
                           ∧ metadata (seen y) !! "title" = Some (title_tool ++ name c))).
  { intros [Hst Htitle]. exists (seen y). rewrite bool_decide_eq_false_2 by done.
    repeat split; try done. intros (c & cs & _ & Ht). by destruct (Htitle (name c)). }
  unfold step_heap.
  destruct (tool_calls a) as [| |[|c cs]] eqn:Hcalls.
  - rewrite Hplain. apply Hsettled.
    apply list_elem_of_lookup_2 in Hm. unfold step_messages in Hm. rewrite Hcalls in Hm.
    pose proof (header_settled a) as H1. pose proof (standalone_settled a) as H2.
    pose proof (footer_settled a) as H3. rewrite Forall_forall in H1, H2, H3.
    apply elem_of_app in Hm as [?|Hm]; [auto|].
    apply elem_of_app in Hm as [?|?]; auto.
  - rewrite Hplain. apply Hsettled.
    apply list_elem_of_lookup_2 in Hm. unfold step_messages in Hm. rewrite Hcalls in Hm.
    pose proof (header_settled a) as H1. pose proof (standalone_settled a) as H2.
    pose proof (footer_settled a) as H3. rewrite Forall_forall in H1, H2, H3.
    apply elem_of_app in Hm as [?|Hm]; [auto|].
    apply elem_of_app in Hm as [?|?]; auto.
  - rewrite Hplain. apply Hsettled.
    apply list_elem_of_lookup_2 in Hm. unfold step_messages in Hm. rewrite Hcalls in Hm.
    rewrite app_nil_r in Hm.
    pose proof (header_settled a) as H1. rewrite Forall_forall in H1. auto.
  - rewrite list_lookup_alter, Hplain.
    rewrite (tool_step_messages a c cs Hcalls) in Hm.
    destruct (decide ((length h + length (header_messages a))%nat = (length h + i)%nat))
      as [Heq|Hne].
    + assert (i = length (header_messages a)) as -> by lia.
      rewrite Hplain. rewrite list_lookup_middle in Hm by done. injection Hm as <-.
      eexists. split; [reflexivity|].
      split; [reflexivity|]. split; [reflexivity|].
      split; [by rewrite bool_decide_eq_true_2|].
      split; [|done]. intros _. by exists c, cs.
    + apply Hsettled.
      pose proof (header_settled a) as H1.
      pose proof (children_settled a (length (c :: cs))) as H2.
      pose proof (footer_settled a) as H3. rewrite Forall_forall in H1, H2, H3.
      apply lookup_app_Some in Hm as [Hm|[Hge Hm]].
      { apply list_elem_of_lookup_2 in Hm. auto. }
      destruct (i - length (header_messages a))%nat as [|j] eqn:Hj; [lia|].
      simpl in Hm. apply list_elem_of_lookup_2 in Hm.
      apply elem_of_app in Hm as [?|?]; auto.
Qed.

Lemma only_parent_changes_witness :
  let y := {| ref := 1; seen := parent_message Samples.print_call 1 |} in
  let w := (run (pull_messages_from_step (IsActionStep Samples.logged_and_failed)) []).1 in
  ∃ stored,
    heap w !! ref y = Some stored
    ∧ role stored = role (seen y)
    ∧ content stored = content (seen y)
    ∧ metadata stored
      = (if bool_decide (metadata (seen y) !! "status" = Some (Py.lit "pending"))
         then <["status" := Py.lit "done"]> (metadata (seen y))
         else metadata (seen y))
    ∧ (metadata (seen y) !! "status" = Some (Py.lit "pending")
       ↔ ∃ c cs, tool_calls Samples.logged_and_failed = Has (c :: cs)
                 ∧ metadata (seen y) !! "title" = Some (title_tool ++ name c)).
Proof.
  apply (only_parent_changes Samples.logged_and_failed []
           {| ref := 1; seen := parent_message Samples.print_call 1 |}).
  apply list_elem_of_lookup. exists 1%nat. vm_compute. reflexivity.
Defined.

(** A character is not in a given text. *)
Ltac not_in_str :=
  let H := fresh in
  vm_compute; intros H;
  repeat (apply elem_of_cons in H as [H|H]; [discriminate|]);
  by apply elem_of_nil in H.

(** *** Whitespace trimming *)

Lemma lstrip_head s :
  match Py.lstrip s with
  | c :: _ => Py.isspace c = false
  | [] => True
  end.
Proof.
  induction s as [|c s IH]; simpl; [done|].
  destruct (Py.isspace c) eqn:Hc; [done|]. simpl. done.
Qed.

Lemma lstrip_id s :
  match s with c :: _ => Py.isspace c = false | [] => True end →
  Py.lstrip s = s.
Proof. destruct s as [|c s]; simpl; [done|]. by intros ->. Qed.

Lemma lstrip_idemp s : Py.lstrip (Py.lstrip s) = Py.lstrip s.
Proof. apply lstrip_id, lstrip_head. Qed.

Lemma lstrip_app_nonspace l c l' :
  Py.isspace c = false → Py.lstrip (l ++ c :: l') = Py.lstrip l ++ c :: l'.
Proof.
  intros Hc. induction l as [|x l IH]; simpl.
  - by rewrite Hc.
  - destruct (Py.isspace x); [done|reflexivity].
Qed.

Lemma rstrip_cons_nonspace c s :
  Py.isspace c = false → Py.rstrip (c :: s) = c :: Py.rstrip s.
Proof.
  intros Hc. unfold Py.rstrip. simpl rev.
  rewrite lstrip_app_nonspace by done. by rewrite rev_app_distr.
Qed.

Lemma rstrip_idemp s : Py.rstrip (Py.rstrip s) = Py.rstrip s.
Proof. unfold Py.rstrip. by rewrite rev_involutive, lstrip_idemp. Qed.

Lemma strip_idemp s : Py.strip (Py.strip s) = Py.strip s.
Proof.
  unfold Py.strip. pose proof (lstrip_head s) as Hh.
  destruct (Py.lstrip s) as [|c u]; [reflexivity|].
  rewrite rstrip_cons_nonspace by done.
  rewrite (lstrip_id (c :: _)) by done.
  by rewrite <- rstrip_cons_nonspace, rstrip_idemp.
Qed.

Lemma lstrip_suffix s : ∃ ws, s = ws ++ Py.lstrip s.
Proof.
  induction s as [|c s [ws IH]]; simpl; [by exists []|].
  destruct (Py.isspace c); [|by exists []].
  exists (c :: ws). simpl. by f_equal.
Qed.

Lemma elem_of_lstrip x s : x ∈ Py.lstrip s → x ∈ s.
Proof. destruct (lstrip_suffix s) as [ws Hs]. rewrite Hs at 2. set_solver. Qed.

Lemma elem_of_rev (x : N) l : x ∈ rev l ↔ x ∈ l.
Proof. rewrite !list_elem_of_In. symmetry. apply in_rev. Qed.

Lemma elem_of_strip x s : x ∈ Py.strip s → x ∈ s.
Proof.
  unfold Py.strip, Py.rstrip. rewrite elem_of_rev.
  intros H%elem_of_lstrip. rewrite elem_of_rev in H. by apply elem_of_lstrip.
Qed.

(** The two ends of a trimmed string. *)
Lemma strip_ends s :
  match Py.strip s with c :: _ => Py.isspace c = false | [] => True end
  ∧ match last (Py.strip s) with Some c => Py.isspace c = false | None => True end.
Proof.
  split.
  - unfold Py.strip. pose proof (lstrip_head s) as Hh.
    destruct (Py.lstrip s) as [|c u]; [done|].
    by rewrite rstrip_cons_nonspace.
  - unfold Py.strip, Py.rstrip.
    pose proof (lstrip_head (rev (Py.lstrip s))) as Hh.
    destruct (Py.lstrip (rev (Py.lstrip s))) as [|c u]; [done|].
    simpl rev. by rewrite last_snoc.
Qed.

(** *** Patterns that cannot match *)

Lemma match_at_lazy_unfold k p at0 adv n s :
  Re.match_at (Re.LazyStar k :: p) at0 adv n s =
    match Re.match_at p at0 adv n s with
    | Some r => Some r
    | None =>
        match s with
        | c :: s' =>
            if Re.in_cls k c then Re.match_at (Re.LazyStar k :: p) at0 adv (S n) s'
            else None
        | [] => None
        end
    end.
Proof. by destruct s. Qed.

(** A pattern with a literal character in it matches only text that holds
    this character. *)
Lemma match_at_needs (c : N) p : ∀ at0 adv n s r,
  Re.One (Re.Ch c) ∈ p →
  Re.match_at p at0 adv n s = Some r → c ∈ s.
Proof.
  induction p as [|it p IH]; intros at0 adv n s r Hin Hm.
  - by apply elem_of_nil in Hin.
  - destruct it as [k|k|k|].
    + destruct s as [|x s]; [done|]. simpl in Hm.
      destruct (Re.in_cls k x) eqn:Hk; [|done].
      apply elem_of_cons in Hin as [[= <-]|Hin].
      * simpl in Hk. apply N.eqb_eq in Hk as ->. left.
      * right. eauto.
    + apply elem_of_cons in Hin as [[=]|Hin].
      revert n r Hm. induction s as [|x s IHs]; intros n r Hm.
      * rewrite match_at_star_nil in Hm. eauto.
      * rewrite match_at_star_cons in Hm.
        destruct (Re.in_cls k x); [|by eauto].
        destruct (Re.match_at (Re.Star k :: p) at0 adv (S n) s) as [r'|] eqn:Hs.
        -- right. eauto.
        -- eauto.
    + apply elem_of_cons in Hin as [[=]|Hin].
      revert n r Hm. induction s as [|x s IHs]; intros n r Hm;
        rewrite match_at_lazy_unfold in Hm;
        destruct (Re.match_at p at0 adv n _) as [r'|] eqn:Hp; try by eauto.
      destruct (Re.in_cls k x); [|done]. right. eauto.
    + apply elem_of_cons in Hin as [[=]|Hin]. simpl in Hm.
      destruct (at0 && Nat.eqb n 0); [|done]. eauto.
Qed.

Lemma sub_from_unchanged (c : N) p repl : ∀ s at0,
  Re.One (Re.Ch c) ∈ p → c ∉ s →
  Re.sub_from p repl at0 0 s = s.
Proof.
  induction s as [|x s IH]; intros at0 Hin Hc.
  - simpl. destruct (Re.match_at p at0 false 0 []) eqn:Hm; [|done].
    apply (match_at_needs c) in Hm; [|done]. by apply elem_of_nil in Hm.
  - rewrite sub_from_miss.
    + f_equal. apply IH; [done|]. set_solver.
    + destruct (Re.match_at p at0 false 0 (x :: s)) eqn:Hm; [|done].
      apply (match_at_needs c) in Hm; done.
Qed.

Lemma sub_unchanged (c : N) pattern p repl s :
  Re.compile pattern = Some p → Re.One (Re.Ch c) ∈ p → c ∉ s →
  Re.sub pattern repl s = s.
Proof. intros Hp Hin Hc. unfold Re.sub. rewrite Hp. by apply (sub_from_unchanged c). Qed.

Lemma clean_without_fence mo :
  96 ∉ mo → clean_model_output mo = Py.strip mo.
Proof.
  intros Hc. unfold clean_model_output. cbv zeta.
  assert (Hs : 96 ∉ Py.strip mo) by (intros H%elem_of_strip; done).
  rewrite (sub_unchanged 96 "```\s*<end_code>" _ _ _ eq_refl) by (done || set_solver).
  rewrite (sub_unchanged 96 "<end_code>\s*```" _ _ _ eq_refl) by (done || set_solver).
  rewrite (sub_unchanged 96 "```\s*\n\s*<end_code>" _ _ _ eq_refl) by (done || set_solver).
  apply strip_idemp.
Qed.

(** X6: a model output that holds no backquote is shown as it is, with
    the whitespace at its two ends removed. *)
Theorem model_output_without_fence (a : ActionStep) (h : list ChatMessage) (mo : str) :
  model_output a = Has mo →
  96 ∉ mo →
  ∃ y, yielded (run (pull_messages_from_step (IsActionStep a)) h).1 !! 1%nat = Some y
       ∧ seen y = assistant (Text (Py.strip mo)) ∅.
Proof.
  intros Hmo Hc. rewrite (thought_message a h mo Hmo).
  eexists. split; [reflexivity|]. cbn [seen]. by rewrite clean_without_fence.
Qed.

Lemma model_output_without_fence_witness :
  ∃ y, yielded (run (pull_messages_from_step
                       (IsActionStep (Samples.thinking (Py.lit "  I will look at the clock. "))))
                  []).1 !! 1%nat = Some y
       ∧ seen y = assistant (Text (Py.lit "I will look at the clock.")) ∅.
Proof.
  apply (model_output_without_fence
           (Samples.thinking (Py.lit "  I will look at the clock. ")) [] _ eq_refl).
  vm_compute. intros H. repeat (apply elem_of_cons in H as [H|H]; [discriminate|]).
  by apply elem_of_nil in H.
Defined.

(** X7: the message for the model output neither begins nor ends with
    whitespace, whatever the output. *)
Theorem model_output_trimmed (a : ActionStep) (h : list ChatMessage) (mo : str) :
  model_output a = Has mo →
  ∃ y text,
    yielded (run (pull_messages_from_step (IsActionStep a)) h).1 !! 1%nat = Some y
    ∧ content (seen y) = Text text
    ∧ match text with c :: _ => Py.isspace c = false | [] => True end
    ∧ match last text with Some c => Py.isspace c = false | None => True end.
Proof.
  intros Hmo. rewrite (thought_message a h mo Hmo).
  eexists _, _. split; [reflexivity|]. split; [reflexivity|].
  unfold clean_model_output. cbv zeta. apply strip_ends.
Qed.

Lemma model_output_trimmed_witness :
  ∃ y text,
    yielded (run (pull_messages_from_step
                    (IsActionStep (Samples.thinking (Py.lit "  ok  ")))) []).1 !! 1%nat
    = Some y
    ∧ content (seen y) = Text text
    ∧ match text with c :: _ => Py.isspace c = false | [] => True end
    ∧ match last text with Some c => Py.isspace c = false | None => True end.
Proof. apply (model_output_trimmed _ [] (Py.lit "  ok  ")). reflexivity. Defined.

(** *** Code content *)

Lemma startswith_app p s : Py.startswith p (p ++ s) = true.
Proof. induction p as [|c p IH]; simpl; [done|]. by rewrite N.eqb_refl, IH. Qed.

Lemma code_content_fenced content :
  Py.startswith (Py.lit "```python") (code_content content) = true.
Proof.
  unfold code_content. cbv zeta.
  set (body := Py.strip _).
  destruct (Py.startswith (Py.lit "```python") body) eqn:Hs; simpl negb; cbv iota;
    [done|].
  apply startswith_app.
Qed.

Lemma code_content_plain content :
  96 ∉ content → 60 ∉ content →
  code_content content
  = Py.lit "```python" ++ Py.nl ++ Py.strip content ++ Py.nl ++ Py.lit "```".
Proof.
  intros Hq Hlt. unfold code_content. cbv zeta.
  rewrite (sub_unchanged 96 "```.*?\n" _ _ _ eq_refl) by (done || set_solver).
  rewrite (sub_unchanged 60 "\s*<end_code>\s*" _ _ _ eq_refl) by (done || set_solver).
  assert (Hs : 96 ∉ Py.strip content) by (intros H%elem_of_strip; done).
  destruct (Py.strip content) as [|c s]; [reflexivity|].
  assert (c ≠ 96) by set_solver.
  change (Py.startswith (Py.lit "```python") (c :: s))
    with ((96 =? c) && Py.startswith (Py.lit "``python") s).
  by rewrite (proj2 (N.eqb_neq 96 c)).
Qed.

Lemma parent_yielded a h c cs :
  tool_calls a = Has (c :: cs) →
  ∃ after,
    yielded (run (pull_messages_from_step (IsActionStep a)) h).1
    = refs (length h) (header_messages a)
      ++ {| ref := (length h + length (header_messages a))%nat;
            seen := parent_message c (length (c :: cs)) |} :: after.
Proof.
  intros Hcalls. rewrite pull_run. cbn [fst yielded].
  rewrite (tool_step_messages a c cs Hcalls), refs_app. cbn [refs]. eauto.
Qed.

(** X8: for a call of "python_interpreter" the first message with metadata
    is the tool message, and its content begins with the python fence. *)
Theorem code_call_fenced (a : ActionStep) (h : list ChatMessage)
    (c : ToolCall) (cs : list ToolCall) :
  tool_calls a = Has (c :: cs) →
  name c = Py.lit "python_interpreter" →
  ∃ before y after text,
    yielded (run (pull_messages_from_step (IsActionStep a)) h).1
    = before ++ y :: after
    ∧ Forall (λ y', metadata (seen y') = ∅) before
    ∧ metadata (seen y) !! "title" = Some (title_tool ++ Py.lit "python_interpreter")
    ∧ content (seen y) = Text text
    ∧ Py.startswith (Py.lit "```python") text = true.
Proof.
  intros Hcalls Hname. destruct (parent_yielded a h c cs Hcalls) as [after ->].
  eexists _, _, after, _. split; [reflexivity|].
  split; [apply (Forall_refs (λ m, metadata m = ∅)), header_no_metadata|].
  cbn [seen]. unfold parent_message. rewrite Hname.
  split; [reflexivity|]. cbn [content assistant].
  rewrite bool_decide_eq_true_2 by done.
  split; [reflexivity|]. apply code_content_fenced.
Qed.

Lemma code_call_fenced_witness :
  ∃ before y after text,
    yielded (run (pull_messages_from_step
                    (IsActionStep Samples.logged_and_failed)) []).1
    = before ++ y :: after
    ∧ Forall (λ y', metadata (seen y') = ∅) before
    ∧ metadata (seen y) !! "title" = Some (title_tool ++ Py.lit "python_interpreter")
    ∧ content (seen y) = Text text
    ∧ Py.startswith (Py.lit "```python") text = true.
Proof.
  apply (code_call_fenced Samples.logged_and_failed [] Samples.print_call []);
    reflexivity.
Defined.

(** X9: code given as the "answer" argument that holds neither a
    backquote nor "<" is shown trimmed, between the python fence and the
    closing fence, each on a line of its own. *)
Theorem plain_code_wrapped (a : ActionStep) (h : list ChatMessage)
    (c : ToolCall) (cs : list ToolCall) (d : gmap str PyObject) (shown : str)
    (answer : PyObject) :
  tool_calls a = Has (c :: cs) →
  name c = Py.lit "python_interpreter" →
  arguments c = ArgsDict d shown →
  d !! Py.lit "answer" = Some answer →
  96 ∉ py_str answer → 60 ∉ py_str answer →
  ∃ before y after,
    yielded (run (pull_messages_from_step (IsActionStep a)) h).1
    = before ++ y :: after
    ∧ Forall (λ y', metadata (seen y') = ∅) before
    ∧ content (seen y)
      = Text (Py.lit "```python" ++ Py.nl ++ Py.strip (py_str answer)
              ++ Py.nl ++ Py.lit "```").
Proof.
  intros Hcalls Hname Hargs Hans Hq Hlt.
  destruct (parent_yielded a h c cs Hcalls) as [after ->].
  eexists _, _, after. split; [reflexivity|].
  split; [apply (Forall_refs (λ m, metadata m = ∅)), header_no_metadata|].
  cbn [seen]. unfold parent_message. rewrite Hname, Hargs.
  cbn [content assistant]. rewrite bool_decide_eq_true_2 by done.
  unfold args_content. rewrite Hans. cbn [default].
  by rewrite code_content_plain.
Qed.

Lemma plain_code_wrapped_witness :
  ∃ before y after,
    yielded (run (pull_messages_from_step
                    (IsActionStep Samples.logged_and_failed)) []).1
    = before ++ y :: after
    ∧ Forall (λ y', metadata (seen y') = ∅) before
    ∧ content (seen y)
      = Text (Py.lit "```python" ++ Py.nl ++ Py.lit "print(1)" ++ Py.nl ++ Py.lit "```").
Proof.
  apply (plain_code_wrapped Samples.logged_and_failed [] Samples.print_call []
           {[ Py.lit "answer" := PyStr (Py.lit "print(1)") ]}
           (Py.lit "{'answer': 'print(1)'}") (PyStr (Py.lit "print(1)")));
    try reflexivity; not_in_str.
Defined.

(** *** The prefix of the execution logs *)

Lemma sub_from_bos_false p repl s :
  Re.sub_from (Re.Bos :: p) repl false 0 s = s.
Proof. induction s as [|c s IH]; simpl; [done|]. by f_equal. Qed.

Lemma length_lstrip s : (length (Py.lstrip s) ≤ length s)%nat.
Proof.
  induction s as [|c s IH]; simpl; [done|].
  destruct (Py.isspace c); simpl; lia.
Qed.

Lemma drop_lstrip s : drop (length s - length (Py.lstrip s)) s = Py.lstrip s.
Proof.
  induction s as [|c s IH]; simpl; [done|].
  destruct (Py.isspace c) eqn:Hc.
  - pose proof (length_lstrip s).
    replace (S (length s) - length (Py.lstrip s))%nat
      with (S (length s - length (Py.lstrip s))) by lia.
    simpl. done.
  - simpl. by rewrite Nat.sub_diag.
Qed.

Lemma match_at_trailing_spaces at0 s : ∀ n,
  Re.match_at [Re.Star Re.Space] at0 false n s
  = Some (n + (length s - length (Py.lstrip s)))%nat.
Proof.
  induction s as [|c s IH]; intros n.
  - rewrite match_at_star_nil. simpl. f_equal. lia.
  - rewrite match_at_star_cons. simpl Re.in_cls. simpl Py.lstrip.
    destruct (Py.isspace c) eqn:Hc.
    + rewrite IH. pose proof (length_lstrip s). f_equal. simpl. lia.
    + simpl. f_equal. lia.
Qed.

Lemma match_at_literal lits p at0 adv : ∀ n s,
  Re.match_at (map (λ c, Re.One (Re.Ch c)) lits ++ p) at0 adv n s
  = if Py.startswith lits s
    then Re.match_at p at0 adv (n + length lits) (drop (length lits) s)
    else None.
Proof.
  induction lits as [|c lits IH]; intros n s; simpl.
  - by rewrite Nat.add_0_r, drop_0.
  - destruct s as [|x s]; [done|]. simpl.
    destruct (c =? x); simpl; [|done].
    rewrite IH. by replace (S n + length lits)%nat with (n + S (length lits))%nat by lia.
Qed.

Lemma logs_pattern :
  Re.compile "^Execution logs:\s*"
  = Some (Re.Bos :: map (λ c, Re.One (Re.Ch c)) logs_prefix ++ [Re.Star Re.Space]).
Proof. vm_compute. reflexivity. Qed.

Lemma logs_prefix_removed s :
  Re.sub "^Execution logs:\s*" [] s
  = if Py.startswith logs_prefix s
    then Py.lstrip (drop (length logs_prefix) s)
    else s.
Proof.
  unfold Re.sub. rewrite logs_pattern.
  destruct s as [|c s].
  - reflexivity.
  - assert (Hm : Re.match_at
                   (Re.Bos :: map (λ c, Re.One (Re.Ch c)) logs_prefix ++ [Re.Star Re.Space])
                   true false 0 (c :: s)
                 = if Py.startswith logs_prefix (c :: s)
                   then Some (length logs_prefix
                              + (length (drop (length logs_prefix) (c :: s))
                                 - length (Py.lstrip (drop (length logs_prefix) (c :: s)))))%nat
                   else None).
    { change (Re.match_at (Re.Bos :: ?p) true false 0 ?t)
        with (Re.match_at p true false 0 t).
      rewrite match_at_literal.
      destruct (Py.startswith logs_prefix (c :: s)); [|done].
      by rewrite match_at_trailing_spaces. }
    destruct (Py.startswith logs_prefix (c :: s)) eqn:Hs.
    + set (t := drop (length logs_prefix) (c :: s)) in *.
      set (k := (length t - length (Py.lstrip t))%nat) in *.
      assert (Hlen : (length logs_prefix ≤ length (c :: s))%nat).
      { clear -Hs. revert Hs. generalize (c :: s). generalize logs_prefix.
        induction l as [|a l IH]; intros [|b l'] H; simpl in *; try lia; try done.
        apply andb_prop in H as [_ H]. apply IH in H. lia. }
      change (length logs_prefix) with 15%nat in *.
      rewrite (sub_from_hit _ _ _ _ _ (14 + k)) by exact Hm.
      assert (Ht : length t = (length (c :: s) - 15)%nat) by (unfold t; apply length_drop).
      assert (Hk : (k ≤ length t)%nat) by (unfold k; lia).
      simpl in Hlen, Ht.
      rewrite sub_from_skip by lia.
      rewrite sub_from_bos_false. simpl app.
      transitivity (drop k t); [|apply drop_lstrip].
      unfold t. change (drop 15 (c :: s)) with (drop 14 s).
      rewrite drop_drop. reflexivity.
    + rewrite sub_from_miss by exact Hm. by rewrite sub_from_bos_false.
Qed.

(** X10: the "Execution Logs" child shows the trimmed observations; when
    these begin with "Execution logs:", the prefix and the whitespace after
    it are left out. *)
Theorem logs_child_content (a : ActionStep) (h : list ChatMessage)
    (c : ToolCall) (cs : list ToolCall) (obs : str) :
  tool_calls a = Has (c :: cs) →
  observations a = Has obs →
  Py.nonempty (Py.strip obs) = true →
  ∃ y, y ∈ yielded (run (pull_messages_from_step (IsActionStep a)) h).1
       ∧ metadata (seen y) !! "title" = Some title_logs
       ∧ content (seen y)
         = Text (if Py.startswith logs_prefix (Py.strip obs)
                 then Py.lstrip (drop (length logs_prefix) (Py.strip obs))
                 else Py.strip obs).
Proof.
  intros Hcalls Hobs Hne. rewrite pull_run. cbn [fst yielded].
  rewrite (tool_step_messages a c cs Hcalls).
  destruct (elem_of_refs
              (child_message title_logs
                 (Re.sub "^Execution logs:\s*" [] (Py.strip obs)) (length (c :: cs)))
              (header_messages a
               ++ parent_message c (length (c :: cs))
                  :: children_messages a (length (c :: cs)) ++ footer_messages a)
              (length h)) as (y & Hy & Hseen).
  - unfold children_messages. rewrite Hobs, Hne. set_solver.
  - exists y. split; [done|]. rewrite Hseen. split; [reflexivity|].
    cbn [content child_message assistant]. by rewrite logs_prefix_removed.
Qed.

Lemma logs_child_content_witness :
  ∃ y, y ∈ yielded (run (pull_messages_from_step
                           (IsActionStep Samples.logged_and_failed)) []).1
       ∧ metadata (seen y) !! "title" = Some title_logs
       ∧ content (seen y) = Text (Py.lit "1").
Proof.
  apply (logs_child_content Samples.logged_and_failed [] Samples.print_call []
           (Py.lit "Execution logs:" ++ Py.nl ++ Py.lit "1"));
    reflexivity.
Defined.

(** *** The streamer *)

Lemma track_tokens_eq l s m :
  track_tokens l s m =
    match item_step (s, m) with
    | Ok s' => Ok ((total_input_tokens l + (item_counts (s, m)).1)%Z,
                   (total_output_tokens l + (item_counts (s, m)).2)%Z, s')
    | Raise e => Raise e
    end.
Proof.
  unfold track_tokens, item_step, item_counts. cbn [fst snd].
  destruct (last_input_token_count m) as [| |i].
  - cbn [fst snd]. by rewrite !Z.add_0_r.
  - reflexivity.
  - cbn [add_count mbind result_bind].
    destruct (last_output_token_count m) as [| |o]; try reflexivity.
    by destruct s.
Qed.

Lemma pull_log_world s w :
  pull_messages_from_step s w =
    ({| heap := log_heap s (heap w);
        yielded := yielded w ++ refs (length (heap w)) (log_messages s);
        mutations := mutations w
                     ++ log_mutations s (length (heap w)) (length (yielded w)) |},
     log_outcome s).
Proof.
  destruct s as [a|v]; [apply pull_world|].
  destruct w. simpl. by rewrite !app_nil_r.
Qed.

Lemma length_log_heap s h :
  length (log_heap s h) = (length h + length (log_messages s))%nat.
Proof. destruct s; simpl; [apply length_step_heap|lia]. Qed.

Lemma loop_body_world l item w :
  loop_body l item w =
    match item_step item with
    | Raise e => (w, Raise e)
    | Ok s =>
        ({| heap := log_heap s (heap w);
            yielded := yielded w ++ refs (length (heap w)) (log_messages s);
            mutations := mutations w
                         ++ log_mutations s (length (heap w)) (length (yielded w)) |},
         match log_outcome s with
         | Ok _ => Ok {| total_input_tokens := total_input_tokens l + (item_counts item).1;
                         total_output_tokens := total_output_tokens l + (item_counts item).2;
                         step_log := Some s |}
         | Raise e => Raise e
         end)
    end.
Proof.
  destruct item as [s m]. unfold loop_body. rewrite lift_bind, track_tokens_eq.
  destruct (item_step (s, m)) as [s'|e]; [|done].
  unfold mbind, gen_bind. rewrite pull_log_world.
  by destruct (log_outcome s') as [[]|e].
Qed.

(** The loop as a function of the run. *)
Lemma for_loop_world items : ∀ l w,
  for_loop items l w =
    ({| heap := loop_heap items (heap w);
        yielded := yielded w ++ refs (length (heap w)) (loop_messages items);
        mutations := mutations w
                     ++ loop_mutations items (length (heap w)) (length (yielded w)) |},
     match loop_failure items with
     | Some e => Raise e
     | None => Ok (loop_locals items l)
     end).
Proof.
  induction items as [|item items IH]; intros l w.
  - destruct w. simpl. by rewrite !app_nil_r.
  - cbn [for_loop]. unfold mbind at 1, gen_bind at 1. rewrite loop_body_world.
    cbn [loop_heap loop_messages loop_mutations loop_failure loop_locals].
    unfold item_outcome.
    destruct (item_step item) as [s|e]; cbn [mbind result_bind].
    + destruct (log_outcome s) as [[]|e].
      * rewrite IH. cbn [heap yielded mutations].
        by rewrite refs_app, length_log_heap, length_app, length_refs, !app_assoc.
      * by rewrite !app_nil_r.
    + destruct w. simpl. by rewrite !app_nil_r.
Qed.

Lemma loop_locals_step_log items : ∀ l,
  loop_failure items = None →
  step_log (loop_locals items l)
  = match last items with
    | Some item => match item_step item with Ok s => Some s | Raise _ => None end
    | None => step_log l
    end.
Proof.
  induction items as [|item items IH]; intros l Hok; [done|].
  cbn [loop_failure] in Hok. unfold item_outcome in Hok.
  destruct (item_step item) as [s|e] eqn:Hs; cbn [mbind result_bind] in Hok; [|done].
  destruct (log_outcome s) as [[]|e]; [|done].
  cbn [loop_locals]. rewrite (IH _ Hok), Hs. cbn [step_log].
  destruct items as [|item' items]; [simpl; by rewrite Hs|].
  rewrite last_cons_cons.
  destruct (last (item' :: items)) eqn:Hlast; [done|]. by apply last_None in Hlast.
Qed.

Lemma loop_failure_app items1 items2 :
  loop_failure (items1 ++ items2)
  = match loop_failure items1 with
    | Some e => Some e
    | None => loop_failure items2
    end.
Proof.
  induction items1 as [|item items1 IH]; simpl; [done|].
  by destruct (item_outcome item).
Qed.

Lemma yield_final_answer_eq final_answer w :
  yield_final_answer final_answer w = (push w (final_message final_answer), Ok tt).
Proof. unfold yield_final_answer. by destruct final_answer; rewrite new_yield. Qed.

(** The streamer as a function of the run. *)
Lemma stream_world handle items w :
  stream_to_gradio handle true items w =
    let w1 := {| heap := loop_heap items (heap w);
                 yielded := yielded w ++ refs (length (heap w)) (loop_messages items);
                 mutations := mutations w
                              ++ loop_mutations items (length (heap w))
                                   (length (yielded w)) |} in
    match loop_failure items with
    | Some e => (w1, Raise e)
    | None =>
        match last items with
        | None => (w1, Raise UnboundLocalError)
        | Some item =>
            match item_step item with
            | Ok s => (push w1 (final_message (handle s)), Ok tt)
            | Raise _ => (w1, Raise UnboundLocalError)
            end
        end
    end.
Proof.
  unfold stream_to_gradio. cbn [negb]. unfold mbind at 1, gen_bind at 1.
  rewrite for_loop_world. cbv zeta.
  destruct (loop_failure items) as [e|] eqn:Hfail; [done|].
  rewrite (loop_locals_step_log items _ Hfail).
  destruct (last items) as [item|]; [|done].
  destruct (item_step item) as [s|e] eqn:Hs.
  - rewrite ret_bind. apply yield_final_answer_eq.
  - done.
Qed.

Lemma loop_failure_last items item :
  loop_failure items = None → last items = Some item →
  ∃ s, item_step item = Ok s ∧ log_outcome s = Ok tt.
Proof.
  intros Hok Hlast. apply last_Some in Hlast as [pre ->].
  rewrite loop_failure_app in Hok.
  destruct (loop_failure pre); [done|]. simpl in Hok. unfold item_outcome in Hok.
  destruct (item_step item) as [s|e]; [|done]. cbn [mbind result_bind] in Hok.
  destruct (log_outcome s) as [[]|e] eqn:Hs; [|done]. exists s. by split.
Qed.

(** How the streamer ends. *)
Lemma stream_outcome (handle : StepLog → FinalAnswer) (gradio_available : bool)
    (items : list (StepLog * Model)) (h : list ChatMessage) :
  (run (stream_to_gradio handle gradio_available items) h).2 =
    if gradio_available then
      match loop_failure items with
      | Some e => Raise e
      | None => match items with [] => Raise UnboundLocalError | _ => Ok tt end
      end
    else Raise ModuleNotFoundError.
Proof.
  destruct gradio_available; [|reflexivity].
  unfold run. rewrite stream_world. cbv zeta.
  destruct (loop_failure items) as [e|] eqn:Hfail; [done|].
  destruct (last items) as [item|] eqn:Hlast.
  - destruct (loop_failure_last items item Hfail Hlast) as (s & -> & _).
    by destruct items.
  - apply last_None in Hlast as ->. done.
Qed.

Lemma item_step_observed item s : item_step item = Ok s → s = observed item.
Proof.
  unfold item_step, observed.
  destruct (last_input_token_count item.2), (last_output_token_count item.2);
    by intros [= <-].
Qed.

Lemma pull_alone s :
  map seen (yielded (run (pull_messages_from_step s) []).1) = log_messages s
  ∧ (run (pull_messages_from_step s) []).2 = log_outcome s.
Proof.
  unfold run. rewrite pull_log_world. cbn [fst snd yielded heap app].
  by rewrite seen_refs.
Qed.

Lemma loop_body_alone item :
  (run (loop_body initial_locals item) []).2
  = match item_outcome item with
    | Ok _ => Ok {| total_input_tokens := (item_counts item).1;
                    total_output_tokens := (item_counts item).2;
                    step_log := Some (observed item) |}
    | Raise e => Raise e
    end.
Proof.
  unfold run. rewrite loop_body_world. unfold item_outcome.
  destruct (item_step item) as [s|e] eqn:Hs; cbn [mbind result_bind snd]; [|done].
  apply item_step_observed in Hs as ->.
  by destruct (log_outcome (observed item)) as [[]|e].
Qed.

Lemma loop_failure_None items :
  loop_failure items = None
  ↔ Forall (λ item, ∃ l, (run (loop_body initial_locals item) []).2 = Ok l) items.
Proof.
  induction items as [|item items IH]; simpl.
  - split; [constructor|done].
  - rewrite Forall_cons, <- IH, loop_body_alone.
    destruct (item_outcome item) as [[]|e]; split; try done.
    + intros H. split; [eauto|done].
    + by intros [_ H].
    + by intros [[l [=]] _].
Qed.

(** X11: with gradio installed the streamer ends normally exactly when the
    run yields at least one item and the turn of the loop for every item, taken
    alone, goes through. *)
Theorem stream_succeeds_iff (handle : StepLog → FinalAnswer)
    (items : list (StepLog * Model)) (h : list ChatMessage) :
  (run (stream_to_gradio handle true items) h).2 = Ok tt
  ↔ items ≠ []
    ∧ Forall (λ item, ∃ l, (run (loop_body initial_locals item) []).2 = Ok l) items.
Proof.
  rewrite stream_outcome, <- loop_failure_None.
  destruct (loop_failure items) as [e|]; [split; [done|by intros [_ [=]]]|].
  destruct items; split; try done. by intros [? _].
Qed.

(** X12: the streamer stops at the first item whose turn raises: it raises
    the same exception, and what came after that item in the run changes
    nothing of what is yielded or stored. *)
Theorem stream_stops_at_first_failure (handle : StepLog → FinalAnswer)
    (before after : list (StepLog * Model)) (bad : StepLog * Model) (e : exn)
    (h : list ChatMessage) :
  Forall (λ item, ∃ l, (run (loop_body initial_locals item) []).2 = Ok l) before →
  (run (loop_body initial_locals bad) []).2 = Raise e →
  run (stream_to_gradio handle true (before ++ bad :: after)) h
  = run (stream_to_gradio handle true (before ++ [bad])) h
  ∧ (run (stream_to_gradio handle true (before ++ bad :: after)) h).2 = Raise e.
Proof.
  intros Hbefore Hbad. apply loop_failure_None in Hbefore.
  rewrite loop_body_alone in Hbad.
  assert (Hout : item_outcome bad = Raise e).
  { destruct (item_outcome bad) as [[]|e']; [done|by injection Hbad as ->]. }
  assert (Hfail : ∀ rest, loop_failure (before ++ bad :: rest) = Some e).
  { intros rest. rewrite loop_failure_app, Hbefore. simpl. by rewrite Hout. }
  assert (Hcut : ∀ rest g k n,
            loop_messages (before ++ bad :: rest) = loop_messages (before ++ [bad])
            ∧ loop_heap (before ++ bad :: rest) g = loop_heap (before ++ [bad]) g
            ∧ loop_mutations (before ++ bad :: rest) k n
              = loop_mutations (before ++ [bad]) k n).
  { intros rest. clear Hfail. induction before as [|item before IH]; intros g k n.
    - simpl. unfold item_outcome in Hout.
      destruct (item_step bad) as [s|e']; cbn [mbind result_bind] in Hout; [|done].
      rewrite Hout. done.
    - simpl in Hbefore. unfold item_outcome in Hbefore.
      destruct (item_step item) as [s|e'] eqn:Hs; cbn [mbind result_bind] in Hbefore;
        [|done].
      destruct (log_outcome s) as [[]|e'] eqn:Ho; [|done].
      simpl. rewrite Hs, Ho.
      destruct (IH Hbefore (log_heap s g) (k + length (log_messages s))%nat
                  (n + length (log_messages s))%nat) as (-> & -> & ->). done. }
  unfold run. rewrite !stream_world. cbv zeta. cbn [heap yielded mutations].
  change (length (@nil Yielded)) with 0%nat. rewrite !Hfail.
  destruct (Hcut after h (length h) 0%nat) as (-> & -> & ->). done.
Qed.

Lemma stream_stops_at_first_failure_witness :
  run (stream_to_gradio MoreSamples.handle true
         ([(IsActionStep Samples.measured, Samples.counting)]
          ++ (IsActionStep Samples.bare, MoreSamples.unset)
             :: [(MoreSamples.answer, Samples.counting)])) []
  = run (stream_to_gradio MoreSamples.handle true
           ([(IsActionStep Samples.measured, Samples.counting)]
            ++ [(IsActionStep Samples.bare, MoreSamples.unset)])) []
  ∧ (run (stream_to_gradio MoreSamples.handle true
            ([(IsActionStep Samples.measured, Samples.counting)]
             ++ (IsActionStep Samples.bare, MoreSamples.unset)
                :: [(MoreSamples.answer, Samples.counting)])) []).2
    = Raise TypeError.
Proof.
  apply stream_stops_at_first_failure.
  - repeat constructor. eexists. vm_compute. reflexivity.
  - vm_compute. reflexivity.
Defined.

Lemma loop_locals_totals items : ∀ l,
  total_input_tokens (loop_locals items l)
  = (total_input_tokens l + foldr Z.add 0 (map (λ item, (item_counts item).1) items))%Z
  ∧ total_output_tokens (loop_locals items l)
    = (total_output_tokens l + foldr Z.add 0 (map (λ item, (item_counts item).2) items))%Z.
Proof.
  induction items as [|item items IH]; intros l; simpl.
  - by rewrite !Z.add_0_r.
  - destruct (IH {| total_input_tokens := total_input_tokens l + (item_counts item).1;
                    total_output_tokens := total_output_tokens l + (item_counts item).2;
                    step_log := match item_step item with
                                | Ok s => Some s
                                | Raise _ => step_log l
                                end |}) as [-> ->].
    cbn [total_input_tokens total_output_tokens]. lia.
Qed.

(** X16: when the loop goes through, each total has grown by the sum of
    the counts that the model reported at the items, an item without counts
    adding nothing. *)
Theorem totals_are_sums (items : list (StepLog * Model)) (l l' : Locals) (w w' : World) :
  for_loop items l w = (w', Ok l') →
  total_input_tokens l'
  = (total_input_tokens l + foldr Z.add 0 (map (λ item, (item_counts item).1) items))%Z
  ∧ total_output_tokens l'
    = (total_output_tokens l + foldr Z.add 0 (map (λ item, (item_counts item).2) items))%Z.
Proof.
  rewrite for_loop_world. destruct (loop_failure items); [done|].
  intros [= _ <-]. apply loop_locals_totals.
Qed.

Lemma totals_are_sums_witness :
  total_input_tokens
    (loop_locals [(IsActionStep Samples.measured, Samples.counting);
                  (MoreSamples.answer, Samples.counting)] Samples.so_far) = 120%Z
  ∧ total_output_tokens
      (loop_locals [(IsActionStep Samples.measured, Samples.counting);
                    (MoreSamples.answer, Samples.counting)] Samples.so_far) = 9%Z.
Proof.
  apply (totals_are_sums
           [(IsActionStep Samples.measured, Samples.counting);
            (MoreSamples.answer, Samples.counting)]
           Samples.so_far _
           {| heap := []; yielded := []; mutations := [] |}
           (for_loop [(IsActionStep Samples.measured, Samples.counting);
                      (MoreSamples.answer, Samples.counting)] Samples.so_far
              {| heap := []; yielded := []; mutations := [] |}).1).
  vm_compute. reflexivity.
Defined.

Lemma loop_messages_ok items :
  loop_failure items = None →
  loop_messages items = flat_map (λ item, log_messages (observed item)) items.
Proof.
  induction items as [|item items IH]; intros Hok; [done|].
  simpl in *. unfold item_outcome in Hok.
  destruct (item_step item) as [s|e] eqn:Hs; cbn [mbind result_bind] in Hok; [|done].
  destruct (log_outcome s) as [[]|e]; [|done].
  apply item_step_observed in Hs as ->. by rewrite IH.
Qed.

(** X13: when the streamer ends normally, it has yielded the messages of
    each item in the order of the run, each item as stamped with the model's
    counts, and then the message of the final answer, made from the last
    item. *)
Theorem stream_messages_in_order (handle : StepLog → FinalAnswer)
    (items : list (StepLog * Model)) (h : list ChatMessage) :
  (run (stream_to_gradio handle true items) h).2 = Ok tt →
  ∃ last_item,
    last items = Some last_item
    ∧ map seen (yielded (run (stream_to_gradio handle true items) h).1)
      = flat_map
          (λ item, map seen (yielded (run (pull_messages_from_step (observed item)) []).1))
          items
        ++ map seen (yielded (run (yield_final_answer (handle (observed last_item))) []).1).
Proof.
  unfold run at 1 2. rewrite stream_world. cbv zeta. cbn [heap yielded app].
  destruct (loop_failure items) as [e|] eqn:Hfail; [done|].
  destruct (last items) as [item|] eqn:Hlast; [|done].
  destruct (item_step item) as [s|e] eqn:Hs; [|done].
  intros _. exists item. split; [done|].
  apply item_step_observed in Hs as ->.
  cbn [fst push yielded heap]. rewrite map_app, seen_refs, (loop_messages_ok _ Hfail).
  f_equal.
  - clear. induction items as [|item' items IH]; [done|].
    simpl. by rewrite (proj1 (pull_alone _)), IH.
  - unfold run. by rewrite yield_final_answer_eq.
Qed.

Lemma stream_messages_in_order_witness :
  ∃ last_item,
    last [(IsActionStep Samples.measured, Samples.counting);
          (MoreSamples.answer, Samples.counting)] = Some last_item
    ∧ map seen (yielded (run (stream_to_gradio MoreSamples.handle true
                                [(IsActionStep Samples.measured, Samples.counting);
                                 (MoreSamples.answer, Samples.counting)]) []).1)
      = flat_map
          (λ item, map seen (yielded (run (pull_messages_from_step (observed item)) []).1))
          [(IsActionStep Samples.measured, Samples.counting);
           (MoreSamples.answer, Samples.counting)]
        ++ map seen (yielded (run (yield_final_answer
                                     (MoreSamples.handle (observed last_item))) []).1).
Proof. apply stream_messages_in_order. vm_compute. reflexivity. Defined.

Lemma take_log_heap s h : take (length h) (log_heap s h) = h.
Proof. destruct s; simpl; [apply take_step_heap|by rewrite firstn_all]. Qed.

Lemma loop_heap_grows items : ∀ h,
  length (loop_heap items h) = (length h + length (loop_messages items))%nat
  ∧ take (length h) (loop_heap items h) = h.
Proof.
  induction items as [|item items IH]; intros h; simpl.
  - split; [lia|by rewrite firstn_all].
  - destruct (item_step item) as [s|e]; [|split; [simpl; lia|by rewrite firstn_all]].
    destruct (log_outcome s) as [[]|e].
    + destruct (IH (log_heap s h)) as [Hlen Htake].
      rewrite Hlen, length_log_heap, length_app. split; [lia|].
      transitivity (take (length h)
                      (take (length (log_heap s h)) (loop_heap items (log_heap s h)))).
      { rewrite take_take, length_log_heap. f_equal. lia. }
      rewrite Htake. apply take_log_heap.
    + rewrite app_nil_r, length_log_heap. split; [done|apply take_log_heap].
Qed.

(** The store and the references after a run of the streamer. *)
Lemma stream_heap_grows (handle : StepLog → FinalAnswer) (gradio_available : bool)
    (items : list (StepLog * Model)) (h : list ChatMessage) :
  let w := (run (stream_to_gradio handle gradio_available items) h).1 in
  take (length h) (heap w) = h
  ∧ length (heap w) = (length h + length (yielded w))%nat
  ∧ ∀ k y, yielded w !! k = Some y → ref y = (length h + k)%nat.
Proof.
  destruct gradio_available.
  2: { simpl. split; [by rewrite firstn_all|]. split; [lia|]. by intros k y. }
  unfold run. rewrite stream_world. cbv zeta. cbn [heap yielded app].
  destruct (loop_heap_grows items h) as [Hlen Htake].
  assert (Hloop : ∀ k y, refs (length h) (loop_messages items) !! k = Some y
                         → ref y = (length h + k)%nat).
  { intros k y Hy. by apply refs_lookup in Hy as [_ ?]. }
  assert (Hw1 : take (length h) (loop_heap items h) = h
                ∧ length (loop_heap items h)
                  = (length h + length (refs (length h) (loop_messages items)))%nat
                ∧ ∀ k y, refs (length h) (loop_messages items) !! k = Some y
                         → ref y = (length h + k)%nat).
  { by rewrite length_refs. }
  destruct (loop_failure items); [exact Hw1|].
  destruct (last items) as [item|]; [|exact Hw1].
  destruct (item_step item) as [s|e]; [|exact Hw1].
  cbn [fst push heap yielded]. split; [|split].
  - rewrite take_app_le by lia. done.
  - rewrite !length_app, length_refs. simpl. lia.
  - intros k y Hy. apply lookup_app_Some in Hy as [Hy|[Hk Hy]]; [by apply Hloop|].
    rewrite length_refs in Hk, Hy.
    destruct (k - length (loop_messages items))%nat as [|k'] eqn:Hd; [|done].
    injection Hy as <-. simpl. lia.
Qed.

(** X14: the streamer leaves the messages that were there in place, creates
    one new message for each one it yields, and yields them in the order in
    which it created them. *)
Theorem stream_store_only_grows (handle : StepLog → FinalAnswer) (gradio_available : bool)
    (items : list (StepLog * Model)) (h : list ChatMessage) :
  let w := (run (stream_to_gradio handle gradio_available items) h).1 in
  take (length h) (heap w) = h
  ∧ length (heap w) = (length h + length (yielded w))%nat
  ∧ ∀ k y, yielded w !! k = Some y → ref y = (length h + k)%nat.
Proof. apply stream_heap_grows. Qed.

Lemma loop_messages_assistant items :
  Forall (λ m, role m = Py.lit "assistant") (loop_messages items).
Proof.
  induction items as [|item items IH]; simpl; [constructor|].
  destruct (item_step item) as [s|e]; [|constructor].
  apply Forall_app. split.
  - destruct s; simpl; [apply step_messages_assistant|constructor].
  - destruct (log_outcome s); [done|constructor].
Qed.

(** X15: every message that the streamer yields has the role
    "assistant". *)
Theorem stream_role_assistant (handle : StepLog → FinalAnswer) (gradio_available : bool)
    (items : list (StepLog * Model)) (h : list ChatMessage) :
  Forall (λ y, role (seen y) = Py.lit "assistant")
    (yielded (run (stream_to_gradio handle gradio_available items) h).1).
Proof.
  destruct gradio_available; [|constructor].
  unfold run. rewrite stream_world. cbv zeta. cbn [heap yielded app].
  pose proof (Forall_refs (λ m, role m = Py.lit "assistant") _ (length h)
                (loop_messages_assistant items)) as Hloop.
  destruct (loop_failure items); [done|].
  destruct (last items) as [item|]; [|done].
  destruct (item_step item) as [s|e]; [|done].
  cbn [fst push yielded]. apply Forall_app. split; [done|].
  by repeat constructor.
Qed.

(** *** The chat *)

Lemma append_and_show_eq msgs : ∀ ms sh,
  append_and_show msgs ms sh
  = (ms ++ map ref msgs,
     sh ++ map (λ k, ms ++ take (S k) (map ref msgs)) (seq 0 (length msgs))).
Proof.
  induction msgs as [|y msgs IH]; intros ms sh; simpl.
  - by rewrite !app_nil_r.
  - rewrite IH. f_equal.
    + by rewrite <- app_assoc.
    + rewrite <- app_assoc. f_equal. simpl. f_equal.
      rewrite <- seq_shift, map_map. apply map_ext. intros k.
      by rewrite <- app_assoc.
Qed.

Lemma refs_consecutive (ys : list Yielded) (base : nat) :
  (∀ k y, ys !! k = Some y → ref y = (base + k)%nat) →
  map ref ys = seq base (length ys).
Proof.
  revert base. induction ys as [|y ys IH]; intros base H; [done|].
  simpl. f_equal.
  - rewrite (H 0%nat y eq_refl). lia.
  - apply IH. intros k y' Hy. rewrite (H (S k) y' Hy). lia.
Qed.

(** X17: the chat ends normally or with the one [gr.Error] about computing
    credits, whatever was raised; it ends normally exactly when gradio is
    installed, the run yields an item and every item's turn goes through. *)
Theorem interact_ending (handle : StepLog → FinalAnswer) (gradio_available : bool)
    (items : list (StepLog * Model)) (prompt : str)
    (st : list ChatMessage) (ms : list nat) :
  let ending := (interact_with_agent handle gradio_available items prompt st ms).2 in
  (ending = Finished ∨ ending = GrError out_of_credits)
  ∧ (ending = Finished
     ↔ gradio_available = true
       ∧ items ≠ []
       ∧ Forall (λ item, ∃ l, (run (loop_body initial_locals item) []).2 = Ok l) items).
Proof.
  unfold interact_with_agent. cbv zeta.
  pose proof (stream_outcome handle gradio_available items (st ++ [user_message prompt]))
    as Hout.
  assert (Hiff :
    (run (stream_to_gradio handle true items) (st ++ [user_message prompt])).2 = Ok tt
    ↔ items ≠ []
      ∧ Forall (λ item, ∃ l, (run (loop_body initial_locals item) []).2 = Ok l) items).
  { rewrite stream_outcome, <- loop_failure_None.
    destruct (loop_failure items) as [e|]; [split; [done|by intros [_ [=]]]|].
    destruct items; split; try done. by intros [? _]. }
  destruct (run (stream_to_gradio handle gradio_available items)
              (st ++ [user_message prompt])) as [w outcome] eqn:Hrun.
  destruct (append_and_show (yielded w) (ms ++ [length st]) [ms ++ [length st]])
    as [ms' sh'].
  cbn [snd] in Hout.
  destruct gradio_available.
  - rewrite Hrun in Hiff. cbn [snd] in Hiff.
    destruct outcome as [[]|e]; cbn [snd].
    + split; [by left|]. split; [intros _|done]. split; [done|by apply Hiff].
    + split; [by right|]. split; [done|]. intros (_ & H). by apply Hiff in H.
  - subst outcome. cbn [snd]. split; [by right|]. split; [done|by intros [? _]].
Qed.

(** X18: the chat appends to the caller's list the user's message and then
    every message of the streamer, in order; it shows the list after each
    append, and once more when the streamer has ended normally. The messages
    stored before stay as they were. *)
Theorem interact_appends_fresh (handle : StepLog → FinalAnswer) (gradio_available : bool)
    (items : list (StepLog * Model)) (prompt : str)
    (st : list ChatMessage) (ms : list nat) :
  let result := interact_with_agent handle gradio_available items prompt st ms in
  let n := length (yielded (run (stream_to_gradio handle gradio_available items)
                              (st ++ [user_message prompt])).1) in
  messages result.1 = ms ++ seq (length st) (S n)
  ∧ store result.1 !! length st = Some (user_message prompt)
  ∧ take (length st) (store result.1) = st
  ∧ shown result.1
    = map (λ k, ms ++ seq (length st) (S k)) (seq 0 (S n))
      ++ match result.2 with
         | Finished => [ms ++ seq (length st) (S n)]
         | GrError _ => []
         end.
Proof.
  unfold interact_with_agent. cbv zeta.
  pose proof (stream_heap_grows handle gradio_available items
                (st ++ [user_message prompt])) as Hgrow.
  destruct (run (stream_to_gradio handle gradio_available items)
              (st ++ [user_message prompt])) as [w outcome] eqn:Hrun.
  cbv zeta in Hgrow. cbn [fst] in Hgrow. destruct Hgrow as (Htake & _ & Hrefs).
  rewrite append_and_show_eq.
  rewrite (refs_consecutive _ _ Hrefs), length_app. simpl length.
  replace (length st + 1)%nat with (S (length st)) by lia.
  assert (Hmsgs : (ms ++ [length st]) ++ seq (S (length st)) (length (yielded w))
                  = ms ++ seq (length st) (S (length (yielded w)))).
  { by rewrite <- app_assoc. }
  assert (Hstore : heap w !! length st = Some (user_message prompt)
                   ∧ take (length st) (heap w) = st).
  { split.
    - rewrite <- (lookup_take_lt (heap w) (length (st ++ [user_message prompt])))
        by (rewrite length_app; simpl; lia).
      rewrite Htake. by apply list_lookup_middle.
    - rewrite <- (take_app_length st [user_message prompt]) at 2.
      rewrite <- Htake, take_take, length_app. f_equal. lia. }
  assert (Hshown : [ms ++ [length st]]
                   ++ map (λ k, (ms ++ [length st])
                                ++ take (S k) (seq (S (length st)) (length (yielded w))))
                        (seq 0 (length (yielded w)))
                   = map (λ k, ms ++ seq (length st) (S k))
                       (seq 0 (S (length (yielded w))))).
  { generalize (length (yielded w)). intros n.
    rewrite <- cons_seq, map_cons. cbn [app]. f_equal.
    rewrite <- (seq_shift n 0), map_map.
    apply map_ext_in. intros k Hk%in_seq.
    rewrite <- app_assoc. cbn [app]. do 2 f_equal.
    rewrite take_seq. rewrite <- cons_seq. f_equal. f_equal. lia. }
  destruct outcome as [[]|e]; cbn [fst snd messages store shown].
  - rewrite Hmsgs. repeat split; try apply Hstore. by rewrite Hshown.
  - rewrite Hmsgs. repeat split; try apply Hstore. by rewrite Hshown, app_nil_r.
Qed.

(** *** Uploads *)

Lemma split_dot_nonempty s : split_dot s ≠ [].
Proof.
  induction s as [|c s IH]; simpl; [done|].
  destruct (c =? 46); [done|]. by destruct (split_dot s).
Qed.

Lemma split_dot_no_dot s : 46 ∉ s → split_dot s = [s].
Proof.
  induction s as [|c s IH]; intros Hs; simpl; [done|].
  destruct (N.eqb_spec c 46) as [->|Hc]; [set_solver|].
  rewrite IH by set_solver. done.
Qed.

Lemma split_dot_app a b : split_dot (a ++ 46 :: b) = split_dot a ++ split_dot b.
Proof.
  induction a as [|c a IH]; simpl; [done|].
  destruct (c =? 46); [by rewrite IH|].
  rewrite IH. pose proof (split_dot_nonempty a).
  by destruct (split_dot a).
Qed.

Lemma concat_split_dot s : concat (split_dot s) = filter (λ c, c ≠ 46) s.
Proof.
  induction s as [|c s IH]; simpl; [done|].
  destruct (N.eqb_spec c 46) as [->|Hc].
  - simpl. rewrite IH. by rewrite filter_cons_False by (intros H; by apply H).
  - rewrite filter_cons_True by done. rewrite <- IH.
    pose proof (split_dot_nonempty s). by destruct (split_dot s).
Qed.

Lemma fill_type_to_ext_lookup types_map t : ∀ acc,
  fill_type_to_ext types_map acc !! t
  = match acc !! t with
    | Some ext => Some ext
    | None => fst <$> find (λ p, bool_decide (p.2 = t)) types_map
    end.
Proof.
  induction types_map as [|[ext t'] tm IH]; intros acc; simpl.
  - by destruct (acc !! t).
  - rewrite IH. destruct (acc !! t') as [e'|] eqn:Ht'.
    + destruct (acc !! t) as [e|] eqn:Ht; [done|].
      rewrite bool_decide_eq_false_2; [done|]. intros ->. congruence.
    + destruct (decide (t' = t)) as [->|Hne].
      * rewrite lookup_insert_eq, Ht'. by rewrite bool_decide_eq_true_2.
      * rewrite lookup_insert_ne by done.
        by rewrite (bool_decide_eq_false_2 (t' = t)).
Qed.

Section SanitizeFacts.

Variable isalnum : N → bool.

Lemma sanitize_app a b :
  sanitize isalnum (a ++ b) = sanitize isalnum a ++ sanitize isalnum b.
Proof. apply map_app. Qed.

Lemma sanitize_kept s : Forall (λ c, kept isalnum c = true) (sanitize isalnum s).
Proof.
  induction s as [|c s IH]; simpl; constructor; [|done].
  destruct (kept isalnum c) eqn:Hc; [done|].
  unfold kept. simpl. by rewrite orb_true_r.
Qed.

Lemma sanitize_no_dot s : 46 ∉ s → 46 ∉ sanitize isalnum s.
Proof.
  induction s as [|c s IH]; intros Hs; simpl; [done|].
  apply not_elem_of_cons. split; [|apply IH; set_solver].
  destruct (kept isalnum c); [set_solver|done].
Qed.

(** X22: the part of the name after its last dot is dropped and the
    extension of the type put in its place; the dots before it are removed,
    and every other character that is not kept becomes "_". *)
Theorem stored_name_drops_extension (stem_part last_part ext : str) :
  46 ∉ last_part →
  stored_name isalnum (stem_part ++ 46 :: last_part) ext
  = filter (λ c, c ≠ 46) (sanitize isalnum stem_part) ++ ext.
Proof.
  intros Hlast. unfold stored_name. cbv zeta.
  rewrite sanitize_app. simpl sanitize.
  replace (if kept isalnum 46 then 46 else 95) with 46
    by (unfold kept; simpl; by rewrite orb_true_r).
  rewrite split_dot_app, (split_dot_no_dot (sanitize isalnum last_part))
    by (by apply sanitize_no_dot).
  rewrite removelast_last, concat_app, concat_split_dot. simpl. by rewrite app_nil_r.
Qed.

(** X23: of a name without a dot nothing is kept: the file is stored
    under the extension alone. *)
Theorem stored_name_without_dot (name ext : str) :
  46 ∉ name → stored_name isalnum name ext = ext.
Proof.
  intros Hname. unfold stored_name. cbv zeta.
  rewrite split_dot_no_dot by (by apply sanitize_no_dot). simpl. by rewrite app_nil_r.
Qed.

Lemma stored_name_stem name ext :
  ∃ stem, stored_name isalnum name ext = stem ++ ext
          ∧ Forall (λ c, isalnum c || (c =? 95) || (c =? 45) = true) stem.
Proof.
  unfold stored_name. cbv zeta.
  exists (concat (removelast (split_dot (sanitize isalnum name)))).
  split; [by rewrite concat_app; simpl; rewrite app_nil_r|].
  pose proof (sanitize_kept name) as Hkept.
  pose proof (concat_split_dot (sanitize isalnum name)) as Hcat.
  assert (Hall : Forall (λ c, isalnum c || (c =? 95) || (c =? 45) = true)
                   (concat (split_dot (sanitize isalnum name)))).
  { rewrite Hcat. apply Forall_forall. intros c Hc.
    apply list_elem_of_filter in Hc as [Hne Hc].
    rewrite Forall_forall in Hkept. specialize (Hkept c Hc).
    unfold kept in Hkept. apply orb_prop in Hkept as [H|H]; [done|].
    apply N.eqb_eq in H. done. }
  pose proof (split_dot_nonempty (sanitize isalnum name)) as Hne.
  destruct (exists_last Hne) as (segs & seg & Hs). rewrite Hs in *.
  rewrite removelast_last. rewrite concat_app in Hall.
  by apply Forall_app in Hall as [? _].
Qed.

End SanitizeFacts.

Lemma stored_name_drops_extension_witness :
  stored_name MoreSamples.isalnum (Py.lit "my notes.v2" ++ 46 :: Py.lit "TXT")
    (Py.lit ".txt")
  = Py.lit "my_notesv2.txt".
Proof.
  apply (stored_name_drops_extension MoreSamples.isalnum
           (Py.lit "my notes.v2") (Py.lit "TXT") (Py.lit ".txt")).
  not_in_str.
Defined.

Lemma stored_name_without_dot_witness :
  stored_name MoreSamples.isalnum (Py.lit "README") (Py.lit ".txt") = Py.lit ".txt".
Proof.
  apply (stored_name_without_dot MoreSamples.isalnum (Py.lit "README") (Py.lit ".txt")).
  not_in_str.
Defined.

Section UploadFacts.

Variable isalnum : N → bool.
Variable guess_type : str → Guess.
Variable basename : str → str.
Variable join : str → str → str.
Variable types_map : list (str * str).
Variable copy_fails : str → str → bool.

(** X19: when a file is copied, its type was guessed and is allowed, and
    the copy goes into the upload folder under a name made of letters,
    digits, "_" and "-" followed by an extension of that type; the path is
    appended to the log and reported in the status. *)
Theorem upload_stores_sanitized folder file log allowed status log' src dst :
  upload_file isalnum guess_type basename join types_map copy_fails
    folder file log allowed = Returned status log' (Some (src, dst)) →
  ∃ t ext stem dir,
    file = Some src ∧ guess_type src = Guessed (Some t) ∧ t ∈ allowed
    ∧ (ext, t) ∈ types_map ∧ folder = Some dir
    ∧ Forall (λ c, isalnum c || (c =? 95) || (c =? 45) = true) stem
    ∧ dst = join dir (basename (stem ++ ext))
    ∧ log' = log ++ [dst]
    ∧ status = Py.lit "File uploaded: " ++ dst.
Proof.
  unfold upload_file. intros H.
  destruct file as [name|]; [|done].
  destruct (guess_type name) as [e|[t|]] eqn:Hguess; [done| |done].
  destruct (decide (t ∈ allowed)) as [Hin|Hout];
    [rewrite bool_decide_eq_true_2 in H by done
    |rewrite bool_decide_eq_false_2 in H by done; done].
  cbn [negb] in H. cbv zeta in H.
  destruct (fill_type_to_ext types_map ∅ !! t) as [ext|] eqn:Hext; [|done].
  destruct folder as [dir|]; [|done].
  destruct (copy_fails name _); [done|].
  injection H as <- <- <- <-.
  destruct (stored_name_stem isalnum (basename name) ext) as (stem & -> & Hstem).
  exists t, ext, stem, dir. rewrite Hguess. repeat split; try done.
  rewrite fill_type_to_ext_lookup, lookup_empty in Hext.
  destruct (find _ types_map) as [[ext' t']|] eqn:Hfind; [|done].
  simpl in Hext. injection Hext as ->.
  apply find_some in Hfind as [Hin' Heq].
  apply bool_decide_eq_true in Heq. simpl in Heq. subst t'.
  by apply list_elem_of_In.
Qed.

(** X20: when the upload returns, the log has grown by the path of the
    copy, if one was made, and by nothing else; no copy is made exactly when
    no file was given, or the guess raised, or the type guessed is not
    allowed. *)
Theorem upload_log_tracks_copies folder file log allowed status log' copied :
  upload_file isalnum guess_type basename join types_map copy_fails
    folder file log allowed = Returned status log' copied →
  log' = log ++ match copied with Some (_, dst) => [dst] | None => [] end
  ∧ (copied = None ↔
     file = None
     ∨ ∃ name, file = Some name
               ∧ ∀ t, guess_type name = Guessed (Some t) → t ∉ allowed).
Proof.
  unfold upload_file. intros H.
  destruct file as [name|].
  2:{ injection H as <- <- <-. rewrite app_nil_r. split; [done|]. split; auto. }
  destruct (guess_type name) as [e|[t|]] eqn:Hguess.
  - injection H as <- <- <-. rewrite app_nil_r. split; [done|].
    split; [|done]. intros _. right. exists name. split; [done|]. intros t Ht. congruence.
  - destruct (decide (t ∈ allowed)) as [Hin|Hout];
      [rewrite bool_decide_eq_true_2 in H by done
      |rewrite bool_decide_eq_false_2 in H by done].
    + cbn [negb] in H. cbv zeta in H.
      destruct (fill_type_to_ext types_map ∅ !! t) as [ext|]; [|done].
      destruct folder as [dir|]; [|done].
      destruct (copy_fails name _); [done|].
      injection H as <- <- <-. split; [done|]. split; [done|].
      intros [?|(name' & [= <-] & Hno)]; [done|].
      by destruct (Hno t Hguess).
    + cbn [negb] in H. injection H as <- <- <-. rewrite app_nil_r. split; [done|].
      split; [|done]. intros _. right. exists name. split; [done|].
      intros t' Ht'. congruence.
  - injection H as <- <- <-. rewrite app_nil_r. split; [done|].
    split; [|done]. intros _. right. exists name. split; [done|]. intros t Ht. congruence.
Qed.

(** X21: the upload raises only for a file of an allowed type:
    [KeyError] when the table of types has no extension for it, the
    [TypeError] of the join when it has one and there is no upload folder,
    and otherwise the error of the copy. *)
Theorem upload_fails_iff folder file log allowed e :
  upload_file isalnum guess_type basename join types_map copy_fails
    folder file log allowed = Failed e ↔
  ∃ name t, file = Some name ∧ guess_type name = Guessed (Some t) ∧ t ∈ allowed
    ∧ match e with
      | KeyError => t ∉ types_map.*2
      | JoinTypeError => t ∈ types_map.*2 ∧ folder = None
      | CopyError =>
          ∃ ext dir, fill_type_to_ext types_map ∅ !! t = Some ext
            ∧ folder = Some dir
            ∧ copy_fails name
                (join dir (basename (stored_name isalnum (basename name) ext))) = true
      end.
Proof.
  assert (Hdom : ∀ t, fill_type_to_ext types_map ∅ !! t = None ↔ t ∉ types_map.*2).
  { intros t. rewrite fill_type_to_ext_lookup, lookup_empty.
    destruct (find _ types_map) as [[ext' t']|] eqn:Hfind; simpl.
    - apply find_some in Hfind as [Hin' Heq].
      apply bool_decide_eq_true in Heq. simpl in Heq. subst t'.
      split; [done|]. intros Hno. destruct Hno.
      apply list_elem_of_fmap. exists (ext', t). split; [done|].
      by apply list_elem_of_In.
    - split; [|done]. intros _ Hin.
      apply list_elem_of_fmap in Hin as ([ext' t'] & -> & Hin).
      apply list_elem_of_In in Hin.
      pose proof (find_none _ _ Hfind _ Hin) as Hf. simpl in Hf.
      by apply bool_decide_eq_false in Hf. }
  unfold upload_file. split.
  - intros H.
    destruct file as [name|]; [|done].
    destruct (guess_type name) as [m|[t|]] eqn:Hguess; [done| |done].
    destruct (decide (t ∈ allowed)) as [Hin|Hout];
      [rewrite bool_decide_eq_true_2 in H by done
      |rewrite bool_decide_eq_false_2 in H by done; done].
    cbn [negb] in H. cbv zeta in H.
    exists name, t. rewrite Hguess. do 3 (split; [done|]).
    destruct (fill_type_to_ext types_map ∅ !! t) as [ext|] eqn:Hext.
    + assert (t ∈ types_map.*2) as Hmem.
      { destruct (decide (t ∈ types_map.*2)) as [|Hno]; [done|].
        apply Hdom in Hno. congruence. }
      destruct folder as [dir|].
      * destruct (copy_fails name _) eqn:Hcopy; [|done].
        injection H as <-. by exists ext, dir.
      * by injection H as <-.
    + injection H as <-. by apply Hdom.
  - intros (name & t & -> & Hguess & Hin & He). rewrite Hguess.
    rewrite bool_decide_eq_true_2 by done. cbn [negb]. cbv zeta.
    destruct e.
    + apply Hdom in He. by rewrite He.
    + destruct He as [Hmem ->].
      destruct (fill_type_to_ext types_map ∅ !! t) eqn:Hext; [done|].
      apply Hdom in Hext. done.
    + destruct He as (ext & dir & -> & -> & ->). done.
Qed.

End UploadFacts.

Lemma upload_stores_sanitized_witness :
  ∃ t ext stem dir,
    Some (Py.lit "my notes.TXT") = Some (Py.lit "my notes.TXT")
    ∧ MoreSamples.guess_type (Py.lit "my notes.TXT") = Guessed (Some t)
    ∧ t ∈ default_allowed_file_types
    ∧ (ext, t) ∈ MoreSamples.types_map ∧ Some (Py.lit "uploads") = Some dir
    ∧ Forall (λ c, MoreSamples.isalnum c || (c =? 95) || (c =? 45) = true) stem
    ∧ Py.lit "uploads/my_notes.txt" = MoreSamples.join dir (MoreSamples.basename (stem ++ ext))
    ∧ [Py.lit "uploads/my_notes.txt"] = [] ++ [Py.lit "uploads/my_notes.txt"]
    ∧ Py.lit "File uploaded: uploads/my_notes.txt"
      = Py.lit "File uploaded: " ++ Py.lit "uploads/my_notes.txt".
Proof.
  apply (upload_stores_sanitized MoreSamples.isalnum MoreSamples.guess_type
           MoreSamples.basename MoreSamples.join MoreSamples.types_map
           MoreSamples.copy_fails
           (Some (Py.lit "uploads")) (Some (Py.lit "my notes.TXT")) []
           default_allowed_file_types).
  vm_compute. reflexivity.
Defined.

Lemma upload_log_tracks_copies_witness :
  [Py.lit "a.txt"; Py.lit "uploads/my_notes.txt"]
  = [Py.lit "a.txt"] ++ [Py.lit "uploads/my_notes.txt"]
  ∧ (Some (Py.lit "my notes.TXT", Py.lit "uploads/my_notes.txt") = None ↔
     Some (Py.lit "my notes.TXT") = None
     ∨ ∃ name, Some (Py.lit "my notes.TXT") = Some name
               ∧ ∀ t, MoreSamples.guess_type name = Guessed (Some t)
                      → t ∉ default_allowed_file_types).
Proof.
  apply (upload_log_tracks_copies MoreSamples.isalnum MoreSamples.guess_type
           MoreSamples.basename MoreSamples.join MoreSamples.types_map
           MoreSamples.copy_fails
           (Some (Py.lit "uploads")) (Some (Py.lit "my notes.TXT")) [Py.lit "a.txt"]
           default_allowed_file_types (Py.lit "File uploaded: uploads/my_notes.txt")
           [Py.lit "a.txt"; Py.lit "uploads/my_notes.txt"]
           (Some (Py.lit "my notes.TXT", Py.lit "uploads/my_notes.txt"))).
  vm_compute. reflexivity.
Defined.

(** X24: the extension chosen for a type is the first one that the table
    lists for it. *)
Theorem type_to_ext_first (types_map : list (str * str)) (t ext : str) :
  fill_type_to_ext types_map ∅ !! t = Some ext ↔
  ∃ before after,
    types_map = before ++ (ext, t) :: after ∧ t ∉ before.*2.
Proof.
  rewrite fill_type_to_ext_lookup, lookup_empty.
  induction types_map as [|[ext' t'] tm IH]; simpl.
  - split; [done|]. intros (b & a & H & _). by destruct b.
  - destruct (decide (t' = t)) as [->|Hne].
    + rewrite bool_decide_eq_true_2 by done. simpl. split.
      * intros [= ->]. exists [], tm. split; [done|]. simpl. apply not_elem_of_nil.
      * intros ([|[e0 t0] b] & a & H & Hno).
        -- by injection H as -> _.
        -- injection H as -> -> _. destruct Hno. simpl. left.
    + rewrite bool_decide_eq_false_2 by done. rewrite IH. split.
      * intros (b & a & -> & Hno). exists ((ext', t') :: b), a. split; [done|].
        simpl. apply not_elem_of_cons. split; [congruence|done].
      * intros ([|[e0 t0] b] & a & H & Hno).
        -- injection H as _ -> _. done.
        -- injection H as -> -> ->. exists b, a. split; [done|].
           simpl in Hno. by apply not_elem_of_cons in Hno as [_ ?].
Qed.

